(** * Codex-Synaptic: the memory repository and the cognitive cycle

    A shallow embedding of [codex_synaptic/memory_model.py],
    [codex_synaptic/codex.py] and [codex_synaptic/synaptic_loop.py], and the
    properties of the repository ([Codex]) and of the cycle ([SynapticLoop])
    that the specification states; then of the command line of
    [main_mock.py], of the mock embedding models and of the first version
    ([src/codex.py], [src/synaptic_loop.py], [src/main.py]), with further
    properties read off the code.

    Conventions of the embedding.
    - A Python [str] is a [string] whose characters are code points below 256.
    - A Python [float] is idealised as a rational ([Q]); no rounding is modelled.
    - A Python [set] of strings is a [gset string], a [dict] a [gmap].
    - A raised exception is a value of [error]; functions that may raise return
      a [result] next to the state they leave behind.
    - What is printed is returned as a list of [output] lines.
    - The embedding model, the clock and the availability of the vector index
      are outside the program: they are read from a [World], step by step. *)

From Stdlib Require Import Ascii String QArith.
From stdpp Require Import base strings gmap list pretty.

Open Scope string_scope.
Open Scope list_scope.

(** ** Text: [str.strip] *)

Module Text.

(** [str.isspace] on one character, for the code points below 256:
    TAB..CR, FS..US, SPACE, NEL and NBSP. *)
Definition isspace (c : ascii) : bool :=
  let n := N_of_ascii c in
  ((9 <=? n) && (n <=? 13) || (28 <=? n) && (n <=? 32)
   || (n =? 133) || (n =? 160))%N.

Fixpoint lstrip (s : string) : string :=
  match s with
  | EmptyString => EmptyString
  | String c s' => if isspace c then lstrip s' else s
  end.

Fixpoint rstrip (s : string) : string :=
  match s with
  | EmptyString => EmptyString
  | String c s' =>
      match rstrip s' with
      | EmptyString => if isspace c then EmptyString else String c EmptyString
      | r => String c r
      end
  end.

(** [s.strip()] *)
Definition strip (s : string) : string := rstrip (lstrip s).

(** [not s.strip()]: the test both classes use to reject empty text. *)
Definition blank (s : string) : bool :=
  match strip s with
  | EmptyString => true
  | String _ _ => false
  end.

(** Every character of the string is whitespace. *)
Fixpoint all_space (s : string) : bool :=
  match s with
  | EmptyString => true
  | String c s' => isspace c && all_space s'
  end.

(** [s[:n]] *)
Fixpoint prefix (n : nat) (s : string) : string :=
  match n, s with
  | S n', String c s' => String c (prefix n' s')
  | _, _ => EmptyString
  end.

End Text.

(** ** Data model: [memory_model.py] *)

(** A metadata value ([Dict[str, Any]] holds strings and numbers here). *)
Inductive MetaVal :=
  | MStr (s : string)
  | MNum (q : Q).

(** [class Memory(BaseModel)].  The [uuid4] identifier is modelled by the
    number of the step at which it was drawn, which makes it fresh. *)
Record Memory := mkMemory {
  id : nat;
  content : string;
  embedding : list Q;
  metadata : gmap string MetaVal;
  timestamp : Q
}.

(** ** Errors *)

(** One constructor per [raise] of [codex.py]. *)
Inductive error :=
  | EmptyContent          (* ValueError("Memory content cannot be empty") *)
  | EmptyQuery            (* ValueError("Query cannot be empty") *)
  | BadTopK               (* ValueError("top_k must be a positive integer") *)
  | EmbeddingError        (* Exception("Failed to generate embedding: ...") *)
  | QueryEmbeddingError   (* Exception("Failed to generate query embedding: ...") *)
  | StoreError            (* Exception("Failed to store memory in database: ...") *)
  | RetrieveError.        (* Exception("Failed to retrieve memories: ...") *)

(** The error kinds the specification names. *)
Inductive error_kind := InvalidInput | EmbeddingFailure | StorageFailure.

Definition kind (e : error) : error_kind :=
  match e with
  | EmptyContent | EmptyQuery | BadTopK => InvalidInput
  | EmbeddingError | QueryEmbeddingError => EmbeddingFailure
  | StoreError | RetrieveError => StorageFailure
  end.

Inductive result (A : Type) :=
  | Ok (a : A)
  | Raise (e : error).
Arguments Ok {A} a.
Arguments Raise {A} e.

(** ** The world outside the program *)

(** What the external collaborators answer at each step of the run:
    [encode n s] is what [embedding_model.encode(s)] returns at step [n]
    ([None] when it raises), [index_up n] tells whether the vector index
    answers the call made at step [n], [time n] is [time.time()]. *)
Record World := mkWorld {
  encode : nat -> string -> option (list Q);
  index_up : nat -> bool;
  time : nat -> Q
}.

(** ** The vector index *)

Module Index.

(** One row of the collection: what [collection.add] receives. *)
Record Entry := mkEntry {
  entry_id : nat;
  entry_embedding : list Q;
  entry_document : string;
  entry_metadata : gmap string MetaVal
}.

(** Modelled from the spec: the persistent vector index (the ChromaDB
    collection), an external dependency whose code is not part of the
    repository.  The specification gives it four operations, insert, nearest,
    delete-all and count, searches by cosine similarity and breaks ties by
    insertion order.  The collection is the list of its rows, oldest first.
    This index takes every vector; the index that keeps the vectors of a
    collection to one dimensionality is in [Strict] below, and the two agree
    on the calls whose vector has the dimensionality of the stored rows. *)
Definition collection := list Entry.

Definition add (e : Entry) (c : collection) : collection := c ++ [e].

Definition count (c : collection) : nat := length c.

Fixpoint dot (u v : list Q) : Q :=
  match u, v with
  | x :: u', y :: v' => (x * y + dot u' v')%Q
  | _, _ => 0%Q
  end.

(** The cosine of the angle of [u] and [q], squared and with its sign kept:
    [sgn(u.q) (u.q)^2 / (|u|^2 |q|^2)].  It orders vectors as the cosine does
    and needs no square root.  (A zero vector scores 0.) *)
Definition similarity (q u : list Q) : Q :=
  let d := dot u q in
  let c := (d * d / (dot u u * dot q q))%Q in
  if Qle_bool 0 d then c else (- c)%Q.

(** [closer q a b]: [a] is strictly more similar to [q] than [b] is. *)
Definition closer (q : list Q) (a b : Entry) : bool :=
  negb (Qle_bool (similarity q (entry_embedding a))
                 (similarity q (entry_embedding b))).

(** Insert [e], older than every row of [l], into the ranking [l]: it goes
    before the first row that is not strictly closer to [q]. *)
Fixpoint place (q : list Q) (e : Entry) (l : list Entry) : list Entry :=
  match l with
  | [] => [e]
  | y :: l' => if closer q y e then y :: place q e l' else e :: l
  end.

(** The rows from most to least similar, older rows first among equals. *)
Definition rank (q : list Q) (c : collection) : list Entry :=
  foldr (place q) [] c.

(** [nearest(vector, k)]. *)
Definition nearest (q : list Q) (k : nat) (c : collection) : list Entry :=
  take k (rank q c).

(** [collection.query(query_embeddings=qs, n_results=k)['documents']]: one
    list of documents per query vector. *)
Definition query_documents (qs : list (list Q)) (k : nat) (c : collection)
  : list (list string) :=
  map (fun q => map entry_document (nearest q k c)) qs.

(** [e] is at least as similar to [q] as [x] is. *)
Definition beats (q : list Q) (e x : Entry) : Prop :=
  (similarity q (entry_embedding x) <= similarity q (entry_embedding e))%Q.

(** The head of a list is at least as similar to [q] as all its elements. *)
Definition led (q : list Q) (l : list Entry) : Prop :=
  match l with
  | [] => True
  | h :: _ => forall x, x ∈ l -> beats q h x
  end.

(** [h] is the oldest of the rows of [c] most similar to [q]: the rows
    inserted before it are strictly less similar to [q] than it is, the rows
    inserted after it are at most as similar. *)
Definition first_best (q : list Q) (c : collection) (h : Entry) : Prop :=
  exists older newer,
    c = older ++ h :: newer /\
    (forall x, x ∈ older ->
       (similarity q (entry_embedding x) < similarity q (entry_embedding h))%Q) /\
    (forall x, x ∈ newer -> beats q h x).

End Index.

(** ** The repository: [class Codex] *)

(** The state of a [Codex]: its collection, and the number of steps the run
    has taken in the world. *)
Record Codex := mkCodex {
  collection : Index.collection;
  clock : nat
}.

(** A computation on a [Codex] that may raise; the state it leaves behind is
    kept when it raises, as the attributes of a Python object are. *)
Definition CodexM (A : Type) : Type := Codex -> Codex * result A.

Definition ret {A} (a : A) : CodexM A := fun c => (c, Ok a).

Definition raise {A} (e : error) : CodexM A := fun c => (c, Raise e).

Definition bind {A B} (m : CodexM A) (k : A -> CodexM B) : CodexM B :=
  fun c =>
    match m c with
    | (c', Ok a) => k a c'
    | (c', Raise e) => (c', Raise e)
    end.

Notation "'let!' x ':=' m 'in' k" := (bind m (fun x => k))
  (at level 10, x name, m at level 100, k at level 200).

(** Take one step in the world and return its number. *)
Definition tick : CodexM nat :=
  fun c => (mkCodex (collection c) (S (clock c)), Ok (clock c)).

Definition get_collection : CodexM Index.collection :=
  fun c => (c, Ok (collection c)).

Definition set_collection (rows : Index.collection) : CodexM unit :=
  fun c => (mkCodex rows (clock c), Ok tt).

(** [Codex.__init__] on a database directory that holds no memories yet. *)
Definition new_codex : Codex := mkCodex [] 0.

(** What the world holds for the next operation on [c], which calls the
    embedding model first and the vector index second: the embedding of [s]
    is [v], the embedding fails, the index answers. *)
Definition embeds (w : World) (c : Codex) (s : string) (v : list Q) : Prop :=
  encode w (clock c) s = Some v.

Definition embedding_fails (w : World) (c : Codex) (s : string) : Prop :=
  encode w (clock c) s = None.

Definition index_answers (w : World) (c : Codex) : bool :=
  index_up w (S (clock c)).

(** The row [collection.add] is given for a memory: its id, embedding and
    content, and its metadata with the timestamp merged in (a ["timestamp"]
    key of the metadata takes precedence, as in the dict display). *)
Definition entry_of_memory (m : Memory) : Index.Entry :=
  Index.mkEntry (id m) (embedding m) (content m)
    (metadata m ∪ {["timestamp" := MNum (timestamp m)]}).

Section Repository.

Context (w : World).

(** [Codex.add_memory] *)
Definition add_memory (text : string) (meta : gmap string MetaVal)
  : CodexM Memory :=
  if Text.blank text then raise EmptyContent
  else
    let! t := tick in
    match encode w t text with
    | None => raise EmbeddingError
    | Some v =>
        let! s := tick in
        let memory := mkMemory s text v meta (time w s) in
        if index_up w s then
          let! rows := get_collection in
          let! _ := set_collection (Index.add (entry_of_memory memory) rows) in
          ret memory
        else raise StoreError
    end.

(** [Codex.get_memory_count] *)
Definition get_memory_count (c : Codex) : nat := Index.count (collection c).

(** [Codex.retrieve_memory] *)
Definition retrieve_memory (query : string) (top_k : Z) : CodexM (list string) :=
  if Text.blank query then raise EmptyQuery
  else if (top_k <=? 0)%Z then raise BadTopK
  else
    let! t := tick in
    match encode w t query with
    | None => raise QueryEmbeddingError
    | Some query_embedding =>
        let! s := tick in
        if index_up w s then
          let! rows := get_collection in
          let n_results := Z.min top_k (Z.of_nat (Index.count rows)) in
          match Index.query_documents [query_embedding] (Z.to_nat n_results) rows with
          | docs :: _ => ret docs
          | [] => ret []
          end
        else raise RetrieveError
    end.

(** [Codex.clear_memories]: the collection is deleted and created again. *)
Definition clear_memories (c : Codex) : Codex := mkCodex [] (clock c).

End Repository.

(** ** The repository over an index of one dimensionality *)

Module Strict.

(** [v] has as many components as the embedding of every row. *)
Definition same_dimension (v : list Q) (rows : Index.collection) : bool :=
  forallb (fun e => (length (Index.entry_embedding e) =? length v)%nat) rows.

(** Modelled from the spec: the vector index when it keeps the invariant of
    the data model (section 3 of the specification: the embedding length is
    the same for all records of one collection, mixing is disallowed).  The
    index is external and its code is not part of the repository.  It raises,
    here [None], on an insertion or a query whose vector has another number of
    components than a stored row, and is [Index] otherwise. *)
Definition add (e : Index.Entry) (rows : Index.collection)
  : option Index.collection :=
  if same_dimension (Index.entry_embedding e) rows
  then Some (Index.add e rows)
  else None.

(** Modelled from the spec: the query of that index, which raises when one of
    the query vectors has another number of components than a stored row. *)
Definition query_documents (qs : list (list Q)) (k : nat)
    (rows : Index.collection) : option (list (list string)) :=
  if forallb (fun q => same_dimension q rows) qs
  then Some (Index.query_documents qs k rows)
  else None.

Section Repository.

Context (w : World).

(** [Codex.add_memory]: whatever [collection.add] raises is caught and raised
    again as the failure to store. *)
Definition add_memory (text : string) (meta : gmap string MetaVal)
  : CodexM Memory :=
  if Text.blank text then raise EmptyContent
  else
    let! t := tick in
    match encode w t text with
    | None => raise EmbeddingError
    | Some v =>
        let! s := tick in
        let memory := mkMemory s text v meta (time w s) in
        if index_up w s then
          let! rows := get_collection in
          match add (entry_of_memory memory) rows with
          | Some rows' =>
              let! _ := set_collection rows' in
              ret memory
          | None => raise StoreError
          end
        else raise StoreError
    end.

(** [Codex.retrieve_memory]: whatever [collection.query] raises is caught and
    raised again as the failure to retrieve. *)
Definition retrieve_memory (query : string) (top_k : Z) : CodexM (list string) :=
  if Text.blank query then raise EmptyQuery
  else if (top_k <=? 0)%Z then raise BadTopK
  else
    let! t := tick in
    match encode w t query with
    | None => raise QueryEmbeddingError
    | Some query_embedding =>
        let! s := tick in
        if index_up w s then
          let! rows := get_collection in
          let n_results := Z.min top_k (Z.of_nat (Index.count rows)) in
          match query_documents [query_embedding] (Z.to_nat n_results) rows with
          | Some (docs :: _) => ret docs
          | Some [] => ret []
          | None => raise RetrieveError
          end
        else raise RetrieveError
    end.

End Repository.

End Strict.

(** ** The cognitive cycle: [class SynapticLoop] *)

(** The lines the cycle prints, one constructor per [print] of
    [synaptic_loop.py] (the banner lines of the state display are one line). *)
Inductive output :=
  | WarnEmptyInput                       (* "Warning: Empty input received, ..." *)
  | Processing (shown : string)          (* "Processing sensory input: '...'" *)
  | StoredMemory (memory_id : nat)       (* "Stored memory with ID: ..." *)
  | FailedToStore (e : error)            (* "Failed to store memory: {e}" *)
  | RetrieveWarning (e : error)          (* "Warning: Could not retrieve related memories: {e}" *)
  | RunningCycle                         (* "Running cognitive cycle..." *)
  | CognitiveState (shown_beliefs : gset string)
      (shown_intention : option string) (memory_count : nat).

Record SynapticLoop := mkLoop {
  codex : Codex;
  beliefs : gset string;
  current_intention : option string
}.

(** [SynapticLoop.__init__], over a given repository. *)
Definition new_loop (c : Codex) : SynapticLoop := mkLoop c ∅ None.

Definition await_input : string :=
  "Await new sensory input to form beliefs and determine actions.".

Definition formulate_counted (memory_count : nat) : string :=
  "Formulate a response based on recent input and " +:+ pretty memory_count
    +:+ " stored memories.".

Definition formulate_uncounted : string :=
  "Formulate a response based on recent input and related memories.".

Definition input_belief (new_input : string) : string :=
  "The user recently said: " +:+ new_input.

Definition context_belief (n : nat) : string :=
  "I have " +:+ pretty n +:+ " related memories about similar topics".

(** [SynapticLoop.get_beliefs], [get_current_intention] *)
Definition get_beliefs (l : SynapticLoop) : gset string := beliefs l.

Definition get_current_intention (l : SynapticLoop) : option string :=
  current_intention l.

(** [SynapticLoop.clear_beliefs] *)
Definition clear_beliefs (l : SynapticLoop) : SynapticLoop :=
  mkLoop (codex l) ∅ (current_intention l).

(** [SynapticLoop._deliberate] *)
Definition _deliberate (l : SynapticLoop) : string :=
  if decide (beliefs l = ∅) then await_input
  else
    let memory_count := get_memory_count (codex l) in
    if (0 <? memory_count)%nat then formulate_counted memory_count
    else formulate_uncounted.

(** [SynapticLoop._display_cognitive_state] *)
Definition _display_cognitive_state (l : SynapticLoop) : list output :=
  [CognitiveState (beliefs l) (current_intention l) (get_memory_count (codex l))].

(** [SynapticLoop._run_cycle] *)
Definition _run_cycle (l : SynapticLoop) : SynapticLoop * list output :=
  let new_intention := _deliberate l in
  let l' := mkLoop (codex l) (beliefs l) (Some new_intention) in
  (l', RunningCycle :: _display_cognitive_state l').

(** The metadata [process_sensory_input] stores with each input. *)
Definition sensory_metadata : gmap string MetaVal :=
  {["type" := MStr "sensory_input"; "source" := MStr "user_input"]}.

Section Cycle.

Context (w : World).

(** [SynapticLoop._update_beliefs] *)
Definition _update_beliefs (new_input : string) (l : SynapticLoop)
  : SynapticLoop * list output :=
  let new_belief := input_belief new_input in
  let believed := {[new_belief]} ∪ beliefs l in
  match retrieve_memory w new_input 3 (codex l) with
  | (c, Ok related_memories) =>
      match related_memories with
      | [] => (mkLoop c believed (current_intention l), [])
      | _ :: _ =>
          (mkLoop c ({[context_belief (length related_memories)]} ∪ believed)
             (current_intention l), [])
      end
  | (c, Raise e) => (mkLoop c believed (current_intention l), [RetrieveWarning e])
  end.

(** [text_input[:100]] followed by ['...'] when the text is longer. *)
Definition shown_input (text_input : string) : string :=
  Text.prefix 100 text_input
    +:+ (if (100 <? String.length text_input)%nat then "..." else "").

(** [SynapticLoop.process_sensory_input] *)
Definition process_sensory_input (text_input : string) (l : SynapticLoop)
  : SynapticLoop * list output :=
  if Text.blank text_input then (l, [WarnEmptyInput])
  else
    match
      add_memory w text_input sensory_metadata (codex l)
    with
    | (c, Raise e) =>
        (mkLoop c (beliefs l) (current_intention l),
         [Processing (shown_input text_input); FailedToStore e])
    | (c, Ok memory) =>
        let l1 := mkLoop c (beliefs l) (current_intention l) in
        let '(l2, out2) := _update_beliefs text_input l1 in
        let '(l3, out3) := _run_cycle l2 in
        (l3,
         [Processing (shown_input text_input); StoredMemory (id memory)]
           ++ out2 ++ out3)
    end.

End Cycle.

(** The context belief a lookup contributes: one, counting the memories
    returned, when it returns some; none when it returns none or fails. *)
Definition context_beliefs (r : result (list string)) : gset string :=
  match r with
  | Ok (d :: ds) => {[context_belief (length (d :: ds))]}
  | Ok [] => ∅
  | Raise _ => ∅
  end.

(** What a failed lookup prints. *)
Definition lookup_warning (r : result (list string)) : list output :=
  match r with
  | Ok _ => []
  | Raise e => [RetrieveWarning e]
  end.

(** ** Worlds used in the examples *)

Module Worlds.

(** An embedding model that ignores letter case on the two words it knows, as
    an uncased model does; the index always answers. *)
Definition uncased : World :=
  mkWorld
    (fun _ s =>
       if decide (s = "hello") then Some [1%Q; 0%Q]
       else if decide (s = "Hello") then Some [1%Q; 0%Q]
       else Some [0%Q; 1%Q])
    (fun _ => true)
    (fun n => inject_Z (Z.of_nat n)).

(** Two embedding models behind one repository: texts of up to two characters
    are embedded with two components, longer ones with three.  The index is
    reachable. *)
Definition two_models : World :=
  mkWorld
    (fun _ s =>
       if (String.length s <=? 2)%nat then Some [1%Q; 1%Q]
       else Some [1%Q; 1%Q; 1%Q])
    (fun _ => true)
    (fun n => inject_Z (Z.of_nat n)).

(** The embedding model is unreachable. *)
Definition deaf : World :=
  mkWorld (fun _ _ => None) (fun _ => true) (fun n => inject_Z (Z.of_nat n)).

(** The vector index is unreachable. *)
Definition offline : World :=
  mkWorld (fun _ _ => Some [1%Q]) (fun _ => false)
    (fun n => inject_Z (Z.of_nat n)).

(** The embedding model answers the first call only: the insertion of the
    first input succeeds, the lookup that follows it fails. *)
Definition fading : World :=
  mkWorld (fun n _ => if (n <? 2)%nat then Some [1%Q] else None)
    (fun _ => true) (fun n => inject_Z (Z.of_nat n)).

End Worlds.

(** ** Runs used in the examples *)

Module Runs.
Import Worlds.

(** The memory and the repository after ["Hello"] is stored, with the metadata
    of a sensory input, in a fresh repository. *)
Definition hello_memory (v : list Q) : Memory :=
  mkMemory 1 "Hello" v sensory_metadata (inject_Z 1).

Definition hello_stored (v : list Q) (steps : nat) : Codex :=
  mkCodex [entry_of_memory (hello_memory v)] steps.

(** A repository holding ["hello"], then one holding ["hello"] and ["Hello"]. *)
Definition one_hello : Codex := fst (add_memory uncased "hello" ∅ new_codex).

Definition two_hellos : Codex := fst (add_memory uncased "Hello" ∅ one_hello).

(** A repository over the index of one dimensionality, holding ["ab"], whose
    embedding has 2 components. *)
Definition one_pair : Codex :=
  fst (Strict.add_memory two_models "ab" ∅ new_codex).

End Runs.

(** ** More text: [str.lower], [str.split] *)

Module Words.

(** [str.lower] on one character, for the code points below 256: the letters
    A..Z and the accented capitals À..Þ (but not the sign ×) move 32 up. *)
Definition lower_char (c : ascii) : ascii :=
  let n := N_of_ascii c in
  if ((65 <=? n) && (n <=? 90) || (192 <=? n) && (n <=? 214)
      || (216 <=? n) && (n <=? 222))%N
  then ascii_of_N (n + 32)
  else c.

(** [s.lower()] *)
Fixpoint lower (s : string) : string :=
  match s with
  | EmptyString => EmptyString
  | String c s' => String (lower_char c) (lower s')
  end.

(** The words of [s] after the word [cur] being read. *)
Fixpoint split_from (cur : string) (s : string) : list string :=
  match s with
  | EmptyString =>
      match cur with EmptyString => [] | String _ _ => [cur] end
  | String c s' =>
      if Text.isspace c then
        match cur with
        | EmptyString => split_from EmptyString s'
        | String _ _ => cur :: split_from EmptyString s'
        end
      else split_from (cur +:+ String c EmptyString) s'
  end.

(** [s.split()]: the maximal runs of characters that are not whitespace. *)
Definition split (s : string) : list string := split_from EmptyString s.

End Words.

(** ** Sequences of calls on a cycle *)

(** The public operations that change a [SynapticLoop]. *)
Inductive call :=
  | ProcessInput (text : string)
  | ClearBeliefs.

Definition step (w : World) (l : SynapticLoop) (c : call) : SynapticLoop :=
  match c with
  | ProcessInput text => fst (process_sensory_input w text l)
  | ClearBeliefs => clear_beliefs l
  end.

(** The cycle after the calls, made in order. *)
Definition run (w : World) (l : SynapticLoop) (calls : list call)
  : SynapticLoop :=
  foldl (step w) l calls.

(** ** The command line: [main_mock.py]

    [MockSynapticLoop] has the code of [SynapticLoop], over a [MockCodex]
    that has the code of [Codex] but for the [try] around the embedding call;
    the command line is modelled over [SynapticLoop]. *)

Module Cli.

(** What one call of [input()] gives: a line, or [KeyboardInterrupt].  When
    no key is left the standard input has ended and [input()] raises
    [EOFError]. *)
Inductive key :=
  | Line (s : string)
  | Interrupt.

(** The messages of the command line (a multi-line message is one line). *)
Inductive console :=
  | Initializing          (* "Initializing Codex-Synaptic agent (mock version)..." *)
  | Initialized           (* "Agent initialized successfully!" *)
  | InitFailed            (* "Failed to initialize agent: {e}", and the advice *)
  | Welcome               (* print_welcome() *)
  | HelpText              (* print_help() *)
  | ThankYou              (* "Thank you for using Codex-Synaptic! Goodbye." *)
  | BeliefsCleared        (* "All beliefs cleared.", printed by clear_beliefs *)
  | Agent (o : output)    (* a line printed by the agent *)
  | ProcessingInput       (* "Processing input through cognitive system..." *)
  | InterruptReceived     (* "Keyboard interrupt received." *)
  | Goodbye               (* "Goodbye!" *)
  | Continuing            (* "Continuing..." *)
  | EndOfInput.           (* "End of input. Goodbye!" *)

(** How [main] ends: it returns, or [sys.exit(code)] is called. *)
Inductive exit :=
  | Returned
  | SysExit (code : Z).

(** [handle_special_command] *)
Definition handle_special_command (agent : SynapticLoop) (command : string)
  : SynapticLoop * list console * bool :=
  let command := Text.strip (Words.lower command) in
  if decide (command ∈ ["quit"; "exit"]) then (agent, [ThankYou], true)
  else if decide (command = "clear") then
    (clear_beliefs agent, [BeliefsCleared], true)
  else if decide (command = "status") then
    (agent, map Agent (_display_cognitive_state agent), true)
  else if decide (command = "help") then (agent, [HelpText], true)
  else (agent, [], false).

Section Main.

Context (w : World).

(** The [while True] loop of [main], over the keys still to come. *)
Fixpoint loop (agent : SynapticLoop) (keys : list key)
  : SynapticLoop * list console * exit :=
  match keys with
  | [] => (agent, [EndOfInput], Returned)
  | Interrupt :: keys' =>
      (* the handler asks for a confirmation with a second [input()]; what
         that call raises is not caught by the inner [try] but by the outer *)
      match keys' with
      | [] => (agent, [InterruptReceived; InitFailed], SysExit 1)
      | Interrupt :: _ => (agent, [InterruptReceived; Goodbye], SysExit 0)
      | Line answer :: keys'' =>
          let confirm := Words.lower (Text.strip answer) in
          if decide (confirm ∈ ["y"; "yes"]) then
            (agent, [InterruptReceived; Goodbye], Returned)
          else
            let '(a, out, e) := loop agent keys'' in
            (a, InterruptReceived :: Continuing :: out, e)
      end
  | Line s :: keys' =>
      let user_input := Text.strip s in
      if decide (user_input = EmptyString) then loop agent keys'
      else
        let '(agent1, out1, special) :=
          handle_special_command agent user_input in
        if special then
          if decide (Words.lower user_input ∈ ["quit"; "exit"]) then
            (agent1, out1, Returned)
          else
            let '(a, out, e) := loop agent1 keys' in (a, out1 ++ out, e)
        else
          let '(agent2, out2) := process_sensory_input w user_input agent1 in
          let '(a, out, e) := loop agent2 keys' in
          (a, ProcessingInput :: map Agent out2 ++ out, e)
  end.

(** [main]: [db] is the repository the database directory holds, [None] when
    the agent cannot be created. *)
Definition main (db : option Codex) (keys : list key)
  : option SynapticLoop * list console * exit :=
  match db with
  | None => (None, [Initializing; InitFailed], SysExit 1)
  | Some c =>
      let '(a, out, e) := loop (new_loop c) keys in
      (Some a, Initializing :: Initialized :: Welcome :: out, e)
  end.

End Main.

End Cli.

(** ** The hash-based mock embedding: [MockEmbeddingModel] of [src/codex.py]
    and [src/python/codex.py] *)

Module HashEmbedding.

(** [[float(b) / 255.0 for b in hash_bytes]] *)
Definition scaled (hash_bytes : list N) : list Q :=
  map (fun b => (inject_Z (Z.of_N b) / 255)%Q) hash_bytes.

(** The [while len(embedding) < dim] loop, run for at most [fuel] rounds:
    each round appends the first [min(dim - len, len)] components. *)
Fixpoint pad (dim fuel : nat) (embedding : list Q) : option (list Q) :=
  if (length embedding <? dim)%nat then
    match fuel with
    | O => None
    | S fuel' =>
        pad dim fuel'
          (embedding
             ++ take (Nat.min (dim - length embedding) (length embedding))
                  embedding)
    end
  else Some embedding.

(** [MockEmbeddingModel.encode], for the digest function [md5] (the MD5 of
    the UTF-8 bytes of the text) and the dimension [dim], which is 384 in
    [src/codex.py] and 1536 in [src/python/codex.py]. *)
Definition encode (md5 : string -> list N) (dim : nat) (text : string)
  : option (list Q) :=
  take dim <$> pad dim dim (scaled (md5 text)).

(** [OpenAIEmbeddingModel.encode] of [src/python/codex.py]: [api text] is the
    embedding the service returns, [None] when the request raises. *)
Definition openai_encode (api : string -> option (list Q))
    (md5 : string -> list N) (text : string) : option (list Q) :=
  match api text with
  | Some v => Some v
  | None => encode md5 1536 text
  end.

End HashEmbedding.

(** ** The word-count mock embedding: [MockEmbeddingModel] of
    [codex_mock.py] *)

Module WordEmbedding.

Definition embedding_dim : nat := 384.

(** [word_counts[word] = word_counts.get(word, 0) + 1], on a dict kept in
    insertion order. *)
Fixpoint bump (word : string) (counts : list (string * nat))
  : list (string * nat) :=
  match counts with
  | [] => [(word, 1%nat)]
  | (w, n) :: rest =>
      if decide (w = word) then (w, S n) :: rest
      else (w, n) :: bump word rest
  end.

Definition count_words (words : list string) : list (string * nat) :=
  foldl (fun counts word => bump word counts) [] words.

(** [if word not in self.vocab: self.vocab[word] = len(self.vocab)] *)
Definition learn (vocab : gmap string nat) (word : string) : gmap string nat :=
  match vocab !! word with
  | Some _ => vocab
  | None => <[word := size vocab]> vocab
  end.

Section Encode.

(** Python's [hash] of a string, and the functions of [math]. *)
Context (hash : string -> Z) (sin sqrt : Q -> Q).

(** [MockEmbeddingModel.encode]: the vocabulary after the call, and the
    embedding. *)
Definition encode (vocab : gmap string nat) (text : string)
  : gmap string nat * list Q :=
  let words := Words.split (Words.lower text) in
  let vocab := foldl learn vocab words in
  let embedding := replicate embedding_dim 0%Q in
  let word_counts := count_words words in
  let embedding :=
    foldl
      (fun embedding '(word, count) =>
         match vocab !! word with
         | Some _ =>
             let pos := Z.to_nat (hash word mod Z.of_nat embedding_dim) in
             <[pos := (inject_Z (Z.of_nat count)
                       / inject_Z (Z.of_nat (length words)))%Q]> embedding
         | None => embedding
         end)
      embedding word_counts in
  let content_hash := (hash text mod 1000)%Z in
  let embedding :=
    foldl
      (fun embedding i =>
         alter
           (fun x =>
              (x + inject_Z content_hash / 10000
                   * sin (inject_Z (Z.of_nat i) * (1 # 10)))%Q)
           i embedding)
      embedding (seq 0 (Nat.min 50 embedding_dim)) in
  let magnitude :=
    sqrt (foldl (fun total x => (total + x * x)%Q) 0%Q embedding) in
  let embedding :=
    if negb (Qle_bool magnitude 0) then
      map (fun x => (x / magnitude)%Q) embedding
    else embedding in
  (vocab, embedding).

End Encode.

End WordEmbedding.

(** ** Predicates used in the properties *)

(** The string does not begin with whitespace. *)
Definition starts_clean (s : string) : Prop :=
  match s with
  | EmptyString => True
  | String c _ => Text.isspace c = false
  end.

(** No stored document is empty after trimming. *)
Definition no_blank_document (c : Codex) : Prop :=
  Forall (fun e => Text.blank (Index.entry_document e) = false) (collection c).

(** The intention is absent, or is the statement that counts some of the
    stored memories, at least one. *)
Definition intention_counts (l : SynapticLoop) : Prop :=
  current_intention l = None \/
  exists k, (1 <= k <= get_memory_count (codex l))%nat /\
            current_intention l = Some (formulate_counted k).

(** The texts the calls pass to [process_sensory_input]. *)
Definition inputs (calls : list call) : list string :=
  omap (fun c => match c with ProcessInput t => Some t | ClearBeliefs => None end)
    calls.

(** The list [e] repeats the list [e0]: its component [i] is the component
    [i mod length e0] of [e0]. *)
Definition repeats (e0 e : list Q) : Prop :=
  forall i, (i < length e)%nat -> e !! i = e0 !! (i mod length e0)%nat.

(** The vocabulary numbers its words from 0, without gap or repetition. *)
Definition numbered (vocab : gmap string nat) : Prop :=
  (forall word i, vocab !! word = Some i -> (i < size vocab)%nat) /\
  (forall w1 w2 i, vocab !! w1 = Some i -> vocab !! w2 = Some i -> w1 = w2).

(** [word_counts.get(word, 0)] *)
Fixpoint get_count (counts : list (string * nat)) (word : string) : nat :=
  match counts with
  | [] => 0%nat
  | (w, n) :: rest => if decide (w = word) then n else get_count rest word
  end.

(** The number of times [word] occurs among [words]. *)
Definition occurrences (word : string) (words : list string) : nat :=
  length (filter (fun w => w = word) words).

(** The embedding model and the vector index always answer (as for the mock
    model of the tests, which calls no service). *)
Definition reliable (w : World) : Prop :=
  (forall n s, is_Some (encode w n s)) /\ (forall n, index_up w n = true).

(** ** The first version: [src/codex.py], [src/synaptic_loop.py] and
    [src/main.py] *)

Module Legacy.

(** What can be raised: the first version raises nothing itself and catches
    nothing below [main], so an exception is the embedding model's, the
    vector index's, or the [EOFError] of [input()]. *)
Inductive raised :=
  | ModelRaised
  | IndexRaised
  | EndOfFile.

(** [Codex.add_memory] of [src/codex.py]: no check of the content, no
    handler. *)
Definition add_memory (w : World) (text : string) (c : Codex)
  : Codex * (raised + Memory) :=
  let t := clock c in
  match encode w t text with
  | None => (mkCodex (collection c) (S t), inl ModelRaised)
  | Some v =>
      let s := S t in
      let memory :=
        mkMemory s text v {["added_by" := MStr "synaptic_loop"]} (time w s) in
      if index_up w s then
        (mkCodex (Index.add (entry_of_memory memory) (collection c)) (S s),
         inr memory)
      else (mkCodex (collection c) (S s), inl IndexRaised)
  end.

(** [SynapticLoop] of [src/synaptic_loop.py]: a repository and beliefs, no
    intention kept. *)
Record Loop := mkLoop {
  codex : Codex;
  beliefs : gset string
}.

Inductive printed :=
  | Welcome                            (* the banner of main *)
  | ProcessingInput (text : string)    (* "Processing sensory input: '...'" *)
  | MemoryStored (memory_id : nat)     (* "Memory stored with ID: ..." *)
  | BeliefUpdated (belief : string)    (* "Belief updated: ..." *)
  | RunningCycle                       (* "Running cognitive cycle..." *)
  | CurrentBeliefs (held : gset string)  (* "Current beliefs:" and the beliefs *)
  | NewIntention (intention : string)  (* "New intention: ..." *)
  | Goodbye                            (* "Goodbye! Shutting down ..." *)
  | ErrorOccurred (e : raised).        (* "Error occurred: {e}", "Please try again ..." *)

(** [SynapticLoop._deliberate] *)
Definition _deliberate (l : Loop) : string :=
  "Formulate a response based on recent input and related memories.".

(** [SynapticLoop._update_beliefs] *)
Definition _update_beliefs (text_input : string) (l : Loop)
  : Loop * list printed :=
  let new_belief := "The user recently said: " +:+ text_input in
  (mkLoop (codex l) ({[new_belief]} ∪ beliefs l), [BeliefUpdated new_belief]).

(** [SynapticLoop._run_cycle] *)
Definition _run_cycle (l : Loop) : list printed :=
  let intention := _deliberate l in
  [RunningCycle; CurrentBeliefs (beliefs l); NewIntention intention].

(** [SynapticLoop.process_sensory_input]: the cycle after the call, what was
    printed, and the exception that ended the call, if any. *)
Definition process_sensory_input (w : World) (text_input : string) (l : Loop)
  : Loop * list printed * option raised :=
  match add_memory w text_input (codex l) with
  | (c, inl e) => (mkLoop c (beliefs l), [ProcessingInput text_input], Some e)
  | (c, inr memory) =>
      let '(l1, out1) := _update_beliefs text_input (mkLoop c (beliefs l)) in
      (l1,
       [ProcessingInput text_input; MemoryStored (id memory)] ++ out1
         ++ _run_cycle l1,
       None)
  end.

(** How a run of [main] is cut: the loop was left, or the rounds allowed
    were used up. *)
Inductive outcome :=
  | Left
  | StillRunning.

(** The [while True] loop of [main] in [src/main.py], for at most [fuel]
    rounds.  At the end of the keys [input()] raises [EOFError], which the
    handler for [Exception] reports before the loop goes on. *)
Fixpoint loop (w : World) (fuel : nat) (agent : Loop) (keys : list Cli.key)
  : Loop * list printed * outcome :=
  match fuel with
  | O => (agent, [], StillRunning)
  | S fuel' =>
      match keys with
      | [] =>
          let '(a, out, o) := loop w fuel' agent [] in
          (a, ErrorOccurred EndOfFile :: out, o)
      | Cli.Interrupt :: _ => (agent, [Goodbye], Left)
      | Cli.Line s :: keys' =>
          let user_input := Text.strip s in
          if decide (Words.lower user_input ∈ ["quit"; "exit"]) then
            (agent, [Goodbye], Left)
          else if decide (user_input = EmptyString) then
            loop w fuel' agent keys'
          else
            let '(agent1, out1, raised1) :=
              process_sensory_input w user_input agent in
            let '(a, out, o) := loop w fuel' agent1 keys' in
            match raised1 with
            | Some e => (a, out1 ++ ErrorOccurred e :: out, o)
            | None => (a, out1 ++ out, o)
            end
      end
  end.

(** A key that makes the loop leave: a quit command or an interrupt. *)
Definition leaves (k : Cli.key) : Prop :=
  match k with
  | Cli.Line s => Words.lower (Text.strip s) ∈ ["quit"; "exit"]
  | Cli.Interrupt => True
  end.

End Legacy.

(** * Properties *)

(** Projections of a cycle and of a pair, reduced without unfolding sets. *)
Ltac loop_simpl :=
  cbn [fst snd get_beliefs get_current_intention beliefs current_intention
       codex new_loop context_beliefs lookup_warning].

(** ** Text *)

Module TextFacts.
Import Text.

Lemma all_space_lstrip (s : string) : all_space (lstrip s) = all_space s.
Proof.
  induction s as [|c s IH]; simpl; [reflexivity|].
  destruct (isspace c) eqn:Hc; simpl; [exact IH | now rewrite Hc].
Qed.

Lemma rstrip_empty (s : string) :
  match rstrip s with EmptyString => true | String _ _ => false end
  = all_space s.
Proof.
  induction s as [|c s IH]; simpl; [reflexivity|].
  destruct (rstrip s) eqn:Hr.
  - rewrite <- IH. destruct (isspace c); reflexivity.
  - rewrite <- IH. now rewrite andb_false_r.
Qed.

(** [not s.strip()] holds exactly of the strings made of whitespace only. *)
Lemma blank_all_space (s : string) : blank s = all_space s.
Proof.
  unfold blank, strip. now rewrite rstrip_empty, all_space_lstrip.
Qed.

End TextFacts.

(** ** The ranking of the index *)

Module IndexFacts.
Import Index.

Lemma closer_false (q : list Q) (a b : Entry) :
  closer q a b = false <-> beats q b a.
Proof.
  unfold closer, beats. rewrite negb_false_iff. apply Qle_bool_iff.
Qed.

Lemma closer_true (q : list Q) (a b : Entry) :
  closer q a b = true ->
  (similarity q (entry_embedding b) < similarity q (entry_embedding a))%Q.
Proof.
  unfold closer. rewrite negb_true_iff. intros H.
  apply Qnot_le_lt. intros Hle. apply Qle_bool_iff in Hle. congruence.
Qed.

Lemma beats_refl (q : list Q) (e : Entry) : beats q e e.
Proof. apply Qle_refl. Qed.

Lemma beats_trans (q : list Q) (a b c : Entry) :
  beats q a b -> beats q b c -> beats q a c.
Proof. unfold beats. intros Hab Hbc. eapply Qle_trans; eassumption. Qed.

Lemma place_length (q : list Q) (e : Entry) (l : list Entry) :
  length (place q e l) = S (length l).
Proof.
  induction l as [|y l IH]; simpl; [reflexivity|].
  destruct (closer q y e); simpl; [now rewrite IH | reflexivity].
Qed.

Lemma elem_of_place (q : list Q) (e x : Entry) (l : list Entry) :
  x ∈ place q e l <-> x = e \/ x ∈ l.
Proof.
  induction l as [|y l IH]; simpl.
  - rewrite list_elem_of_singleton, elem_of_nil. tauto.
  - destruct (closer q y e).
    + rewrite !elem_of_cons, IH. tauto.
    + rewrite !elem_of_cons. tauto.
Qed.

Lemma rank_length (q : list Q) (c : collection) : length (rank q c) = length c.
Proof.
  induction c as [|e c IH]; simpl; [reflexivity|].
  now rewrite place_length, IH.
Qed.

Lemma elem_of_rank (q : list Q) (x : Entry) (c : collection) :
  x ∈ rank q c <-> x ∈ c.
Proof.
  induction c as [|e c IH]; simpl; [reflexivity|].
  rewrite elem_of_place, elem_of_cons, IH. tauto.
Qed.

Lemma place_led (q : list Q) (e : Entry) (l : list Entry) :
  led q l -> led q (place q e l).
Proof.
  destruct l as [|y l]; simpl.
  - intros _ x Hx. apply list_elem_of_singleton in Hx. subst. apply beats_refl.
  - intros Hy. destruct (closer q y e) eqn:Hc.
    + intros x Hx. apply elem_of_cons in Hx as [->|Hx]; [apply beats_refl|].
      apply elem_of_place in Hx as [->|Hx].
      * apply Qlt_le_weak. now apply closer_true.
      * apply Hy. now right.
    + apply closer_false in Hc.
      intros x Hx. apply elem_of_cons in Hx as [->|Hx]; [apply beats_refl|].
      eapply beats_trans; [exact Hc | now apply Hy].
Qed.

Lemma rank_led (q : list Q) (c : collection) : led q (rank q c).
Proof.
  induction c as [|e c IH]; simpl; [exact I | now apply place_led].
Qed.

(** The first row of the ranking is a row of the collection that is at least
    as similar to the query as every row. *)
Lemma rank_head (q : list Q) (c : collection) (h : Entry) (t : list Entry) :
  rank q c = h :: t -> h ∈ c /\ forall x, x ∈ c -> beats q h x.
Proof.
  intros Hr. split.
  - apply (elem_of_rank q). rewrite Hr. now left.
  - intros x Hx. pose proof (rank_led q c) as Hl. rewrite Hr in Hl.
    apply Hl. rewrite <- Hr. now apply elem_of_rank.
Qed.

(** The first row of the ranking is the oldest of the most similar rows. *)
Lemma rank_first_best (q : list Q) (c : collection) (h : Entry) (t : list Entry) :
  rank q c = h :: t -> first_best q c h.
Proof.
  revert h t. induction c as [|e c IH]; intros h t; simpl; [discriminate|].
  destruct (rank q c) as [|h' t'] eqn:Hr.
  - assert (c = []) as ->.
    { apply length_zero_iff_nil. rewrite <- (rank_length q), Hr. reflexivity. }
    simpl. intros [= <- <-]. exists [], [].
    split; [reflexivity|]. split; intros x Hx; inversion Hx.
  - simpl. destruct (closer q h' e) eqn:Hc.
    + intros [= <- <-].
      destruct (IH h' t' eq_refl) as (older & newer & -> & Ho & Hn).
      exists (e :: older), newer. split; [reflexivity|]. split; [|exact Hn].
      intros x Hx. apply elem_of_cons in Hx as [->|Hx].
      * now apply closer_true.
      * now apply Ho.
    + intros [= <- <-]. exists [], c.
      split; [reflexivity|]. split; [intros x Hx; inversion Hx|].
      intros x Hx. apply closer_false in Hc.
      eapply beats_trans; [exact Hc|].
      now apply (rank_head q c h' t' Hr).
Qed.

(** A collection has one such row at most. *)
Lemma first_best_unique (q : list Q) (c : collection) (h1 h2 : Entry) :
  first_best q c h1 -> first_best q c h2 -> h1 = h2.
Proof.
  intros (o1 & n1 & -> & Ho1 & Hn1) (o2 & n2 & Heq & Ho2 & Hn2).
  revert o2 Heq Ho2. induction o1 as [|x o1 IH]; intros [|y o2] Heq Ho2.
  - now injection Heq.
  - exfalso. simpl in Heq. injection Heq as -> ->.
    apply (Qlt_not_le _ _ (Ho2 y ltac:(left))).
    apply Hn1, elem_of_app. right. now left.
  - exfalso. simpl in Heq. injection Heq as <- <-.
    apply (Qlt_not_le _ _ (Ho1 x ltac:(left))).
    apply Hn2, elem_of_app. right. now left.
  - simpl in Heq. injection Heq as -> Heq.
    apply (IH (fun z Hz => Ho1 z ltac:(now right)) o2 Heq).
    intros z Hz. apply Ho2. now right.
Qed.

Lemma nearest_length (q : list Q) (k : nat) (c : collection) :
  length (nearest q k c) = Nat.min k (count c).
Proof. unfold nearest, count. now rewrite length_take, rank_length. Qed.

Lemma nearest_empty (q : list Q) (k : nat) : nearest q k [] = [].
Proof. unfold nearest. simpl. now destruct k. Qed.

End IndexFacts.

(** ** The repository *)

Section RepositoryFacts.

Context (w : World).

(** [add_memory], case by case. *)
Lemma add_memory_eq (text : string) (meta : gmap string MetaVal) (c : Codex) :
  add_memory w text meta c =
  if Text.blank text then (c, Raise EmptyContent)
  else
    match encode w (clock c) text with
    | None => (mkCodex (collection c) (S (clock c)), Raise EmbeddingError)
    | Some v =>
        let m := mkMemory (S (clock c)) text v meta (time w (S (clock c))) in
        if index_answers w c then
          (mkCodex (collection c ++ [entry_of_memory m]) (S (S (clock c))), Ok m)
        else (mkCodex (collection c) (S (S (clock c))), Raise StoreError)
    end.
Proof.
  unfold add_memory, index_answers.
  destruct (Text.blank text); [reflexivity|].
  unfold bind, tick; simpl.
  destruct (encode w (clock c) text); [|reflexivity]; simpl.
  destruct (index_up w (S (clock c))); reflexivity.
Qed.

(** [retrieve_memory], case by case. *)
Lemma retrieve_memory_eq (query : string) (top_k : Z) (c : Codex) :
  retrieve_memory w query top_k c =
  if Text.blank query then (c, Raise EmptyQuery)
  else if (top_k <=? 0)%Z then (c, Raise BadTopK)
  else
    match encode w (clock c) query with
    | None => (mkCodex (collection c) (S (clock c)), Raise QueryEmbeddingError)
    | Some v =>
        if index_answers w c then
          (mkCodex (collection c) (S (S (clock c))),
           Ok (map Index.entry_document
                 (Index.nearest v
                    (Z.to_nat (Z.min top_k (Z.of_nat (get_memory_count c))))
                    (collection c))))
        else (mkCodex (collection c) (S (S (clock c))), Raise RetrieveError)
    end.
Proof.
  unfold retrieve_memory, index_answers, get_memory_count.
  destruct (Text.blank query); [reflexivity|].
  destruct (top_k <=? 0)%Z; [reflexivity|].
  unfold bind, tick; simpl.
  destruct (encode w (clock c) query); [|reflexivity]; simpl.
  destruct (index_up w (S (clock c))); reflexivity.
Qed.

(** A successful [add_memory] appends the row of the memory it returns, which
    holds the text and the embedding the model gave for it. *)
Lemma add_memory_ok (text : string) (meta : gmap string MetaVal)
    (c c1 : Codex) (m : Memory) :
  add_memory w text meta c = (c1, Ok m) ->
  Text.blank text = false /\ embeds w c text (embedding m) /\
  index_answers w c = true /\ content m = text /\ metadata m = meta /\
  collection c1 = collection c ++ [entry_of_memory m] /\
  clock c1 = S (S (clock c)).
Proof.
  rewrite add_memory_eq. unfold embeds.
  destruct (Text.blank text); [discriminate|].
  destruct (encode w (clock c) text) as [v|]; [|discriminate].
  simpl. destruct (index_answers w c); [|discriminate].
  intros [= <- <-]. simpl. repeat split; reflexivity.
Qed.

(** A failed [add_memory] leaves the collection as it was. *)
Lemma add_memory_raise (text : string) (meta : gmap string MetaVal)
    (c c1 : Codex) (e : error) :
  add_memory w text meta c = (c1, Raise e) ->
  collection c1 = collection c /\
  ((e = EmptyContent /\ Text.blank text = true)
   \/ (e = EmbeddingError /\ embedding_fails w c text)
   \/ (e = StoreError /\ index_answers w c = false)).
Proof.
  rewrite add_memory_eq. unfold embedding_fails.
  destruct (Text.blank text); [intros [= <- <-]; auto|].
  destruct (encode w (clock c) text) as [v|]; [|intros [= <- <-]; auto].
  simpl. destruct (index_answers w c); [discriminate|].
  intros [= <- <-]; auto.
Qed.

(** [retrieve_memory] never changes the collection. *)
Lemma retrieve_memory_collection (query : string) (top_k : Z) (c c1 : Codex)
    (r : result (list string)) :
  retrieve_memory w query top_k c = (c1, r) -> collection c1 = collection c.
Proof.
  rewrite retrieve_memory_eq.
  destruct (Text.blank query); [intros [= <- <-]; reflexivity|].
  destruct (top_k <=? 0)%Z; [intros [= <- <-]; reflexivity|].
  destruct (encode w (clock c) query); [|intros [= <- <-]; reflexivity].
  destruct (index_answers w c); intros [= <- <-]; reflexivity.
Qed.

End RepositoryFacts.

(** ** The repository over an index of one dimensionality *)

Section StrictFacts.

Context (w : World).


(** [Strict.add_memory], case by case. *)
Lemma strict_add_memory_eq (text : string) (meta : gmap string MetaVal)
    (c : Codex) :
  Strict.add_memory w text meta c =
  if Text.blank text then (c, Raise EmptyContent)
  else
    match encode w (clock c) text with
    | None => (mkCodex (collection c) (S (clock c)), Raise EmbeddingError)
    | Some v =>
        let m := mkMemory (S (clock c)) text v meta (time w (S (clock c))) in
        if index_answers w c && Strict.same_dimension v (collection c) then
          (mkCodex (collection c ++ [entry_of_memory m]) (S (S (clock c))), Ok m)
        else (mkCodex (collection c) (S (S (clock c))), Raise StoreError)
    end.
Proof.
  unfold Strict.add_memory, index_answers.
  destruct (Text.blank text); [reflexivity|].
  unfold bind, tick; simpl.
  destruct (encode w (clock c) text) as [v|]; [|reflexivity]; simpl.
  destruct (index_up w (S (clock c))); [|reflexivity]; simpl.
  unfold Strict.add; simpl.
  destruct (Strict.same_dimension v (collection c)); reflexivity.
Qed.

(** [Strict.retrieve_memory], case by case. *)
Lemma strict_retrieve_memory_eq (query : string) (top_k : Z) (c : Codex) :
  Strict.retrieve_memory w query top_k c =
  if Text.blank query then (c, Raise EmptyQuery)
  else if (top_k <=? 0)%Z then (c, Raise BadTopK)
  else
    match encode w (clock c) query with
    | None => (mkCodex (collection c) (S (clock c)), Raise QueryEmbeddingError)
    | Some v =>
        if index_answers w c && Strict.same_dimension v (collection c) then
          (mkCodex (collection c) (S (S (clock c))),
           Ok (map Index.entry_document
                 (Index.nearest v
                    (Z.to_nat (Z.min top_k (Z.of_nat (get_memory_count c))))
                    (collection c))))
        else (mkCodex (collection c) (S (S (clock c))), Raise RetrieveError)
    end.
Proof.
  unfold Strict.retrieve_memory, index_answers, get_memory_count.
  destruct (Text.blank query); [reflexivity|].
  destruct (top_k <=? 0)%Z; [reflexivity|].
  unfold bind, tick; simpl.
  destruct (encode w (clock c) query) as [v|]; [|reflexivity]; simpl.
  destruct (index_up w (S (clock c))); [|reflexivity]; simpl.
  unfold Strict.query_documents; simpl. rewrite andb_true_r.
  destruct (Strict.same_dimension v (collection c)); reflexivity.
Qed.

(** On a call whose vector has the dimensionality of the stored rows, the
    repository behaves over the index of one dimensionality as it does over
    the index that takes every vector. *)
Lemma strict_add_memory_agrees (text : string) (meta : gmap string MetaVal)
    (c : Codex) :
  (forall v, embeds w c text v -> Strict.same_dimension v (collection c) = true) ->
  Strict.add_memory w text meta c = add_memory w text meta c.
Proof.
  intros Hd. rewrite strict_add_memory_eq, add_memory_eq.
  destruct (Text.blank text); [reflexivity|].
  destruct (encode w (clock c) text) as [v|] eqn:He; [|reflexivity].
  simpl. rewrite (Hd v He), andb_true_r. reflexivity.
Qed.

Lemma strict_retrieve_memory_agrees (query : string) (top_k : Z) (c : Codex) :
  (forall v, embeds w c query v -> Strict.same_dimension v (collection c) = true) ->
  Strict.retrieve_memory w query top_k c = retrieve_memory w query top_k c.
Proof.
  intros Hd. rewrite strict_retrieve_memory_eq, retrieve_memory_eq.
  destruct (Text.blank query); [reflexivity|].
  destruct (top_k <=? 0)%Z; [reflexivity|].
  destruct (encode w (clock c) query) as [v|] eqn:He; [|reflexivity].
  rewrite (Hd v He), andb_true_r. reflexivity.
Qed.

End StrictFacts.

(** ** Claims about the repository *)

Section RepositoryClaims.

Context (w : World).

Lemma clamp_to_nat (top_k : Z) (n : nat) :
  Z.to_nat (Z.min top_k (Z.of_nat n)) = Nat.min (Z.to_nat top_k) n.
Proof. lia. Qed.

(** A successful [retrieve_memory] returns the documents of the nearest rows,
    as many as [top_k] allows and the collection holds. *)
Lemma retrieve_memory_ok (query : string) (top_k : Z) (c : Codex) (v : list Q) :
  Text.blank query = false -> (0 < top_k)%Z ->
  embeds w c query v -> index_answers w c = true ->
  retrieve_memory w query top_k c =
  (mkCodex (collection c) (S (S (clock c))),
   Ok (map Index.entry_document
         (Index.nearest v (Nat.min (Z.to_nat top_k) (get_memory_count c))
            (collection c)))).
Proof.
  intros Hb Hk He Hi. rewrite retrieve_memory_eq, Hb.
  destruct (top_k <=? 0)%Z eqn:Hk0; [lia|].
  unfold embeds in He. rewrite He, Hi. now rewrite clamp_to_nat.
Qed.

(** C1, as amended.  For a text that is not empty after trimming, a successful
    [add_memory] makes the count grow by exactly 1; and when the embedding
    model then gives the text the embedding it gave at insertion and the index
    answers, [retrieve_memory] of the text with [top_k = 1] returns one
    document, that of the oldest of the stored rows most similar to that
    embedding: every row inserted before it is strictly less similar, every
    row inserted after it at most as similar.  That document is the text
    whenever every row stored before with another document is strictly less
    similar to the embedding than the embedding is to itself. *)
Theorem add_then_retrieve_top1 (text : string) (meta : gmap string MetaVal)
    (c c1 : Codex) (m : Memory) :
  Text.blank text = false ->
  add_memory w text meta c = (c1, Ok m) ->
  embeds w c1 text (embedding m) ->
  index_answers w c1 = true ->
  get_memory_count c1 = S (get_memory_count c) /\
  exists c2 first,
    retrieve_memory w text 1 c1 = (c2, Ok [Index.entry_document first]) /\
    Index.first_best (embedding m) (collection c1) first /\
    ((forall e, e ∈ collection c -> Index.entry_document e <> text ->
        (Index.similarity (embedding m) (Index.entry_embedding e)
         < Index.similarity (embedding m) (embedding m))%Q) ->
     Index.entry_document first = text).
Proof.
  intros Hb Hadd Hemb Hidx.
  apply add_memory_ok in Hadd as (_ & _ & _ & Hcontent & _ & Hrows & _).
  assert (Hcount : get_memory_count c1 = S (get_memory_count c)).
  { unfold get_memory_count, Index.count. rewrite Hrows, length_app. simpl. lia. }
  split; [exact Hcount|].
  destruct (Index.rank (embedding m) (collection c1)) as [|h t] eqn:Hrank.
  { apply (f_equal length) in Hrank. rewrite IndexFacts.rank_length in Hrank.
    unfold get_memory_count, Index.count in Hcount. simpl in Hrank. lia. }
  exists (mkCodex (collection c1) (S (S (clock c1)))), h.
  split; [|split].
  - rewrite (retrieve_memory_ok text 1 c1 (embedding m)); [|done|lia|done|done].
    f_equal. f_equal. rewrite Hcount. simpl.
    unfold Index.nearest. rewrite Hrank. reflexivity.
  - now apply (IndexFacts.rank_first_best _ _ h t).
  - intros Hfar. apply IndexFacts.rank_head in Hrank as [Hin Hbest].
    destruct (decide (Index.entry_document h = text)) as [|Hne]; [assumption|].
    exfalso. rewrite Hrows in Hin, Hbest.
    apply elem_of_app in Hin as [Hin|Hin].
    + specialize (Hfar h Hin Hne).
      specialize (Hbest (entry_of_memory m)).
      unfold Index.beats in Hbest. simpl in Hbest.
      apply (Qlt_not_le _ _ Hfar). apply Hbest.
      apply elem_of_app. right. now left.
    + apply list_elem_of_singleton in Hin. subst h. now apply Hne.
Qed.


(** C6.  For a string that is empty after trimming, [add_memory] and
    [retrieve_memory] (whatever [top_k]) both fail with an invalid-input error
    and leave the repository exactly as it was. *)
Theorem blank_text_rejected (s : string) (meta : gmap string MetaVal)
    (top_k : Z) (c : Codex) :
  Text.strip s = EmptyString ->
  add_memory w s meta c = (c, Raise EmptyContent) /\
  kind EmptyContent = InvalidInput /\
  retrieve_memory w s top_k c = (c, Raise EmptyQuery) /\
  kind EmptyQuery = InvalidInput.
Proof.
  intros Hs.
  assert (Hb : Text.blank s = true) by (unfold Text.blank; now rewrite Hs).
  rewrite add_memory_eq, retrieve_memory_eq, Hb. repeat split; reflexivity.
Qed.

(** C7.  For a query that is not empty after trimming: with [top_k <= 0],
    [retrieve_memory] fails with an invalid-input error; with [top_k > 0], the
    query embedded and the index answering, it returns
    [min top_k count] documents, hence no more than are stored, and none
    from an empty repository. *)
Theorem top_k_checked_and_clamped (query : string) (top_k : Z) (c : Codex) :
  Text.blank query = false ->
  ((top_k <= 0)%Z ->
     retrieve_memory w query top_k c = (c, Raise BadTopK) /\
     kind BadTopK = InvalidInput) /\
  ((0 < top_k)%Z ->
     forall v, embeds w c query v -> index_answers w c = true ->
     exists c1 docs,
       retrieve_memory w query top_k c = (c1, Ok docs) /\
       length docs = Nat.min (Z.to_nat top_k) (get_memory_count c) /\
       (length docs <= get_memory_count c)%nat /\
       (get_memory_count c = 0%nat -> docs = [])).
Proof.
  intros Hb. split.
  - intros Hk. rewrite retrieve_memory_eq, Hb.
    destruct (top_k <=? 0)%Z eqn:Hk0; [|lia]. split; reflexivity.
  - intros Hk v He Hi. eexists _, _.
    split; [apply (retrieve_memory_ok query top_k c v); assumption|].
    rewrite length_map, IndexFacts.nearest_length.
    unfold get_memory_count, Index.count.
    split; [lia|]. split; [lia|].
    intros H0. apply length_zero_iff_nil in H0. rewrite H0.
    now rewrite IndexFacts.nearest_empty.
Qed.

(** C8.  After [clear_memories] the count is 0, the collection is that of a
    fresh repository, it holds no id at all (so none that existed before),
    and [retrieve_memory] of a query that is not empty after trimming, embedded
    and answered by the index, returns the empty list. *)
Theorem clear_memories_resets (c : Codex) (query : string) (top_k : Z)
    (v : list Q) :
  Text.blank query = false ->
  (0 < top_k)%Z ->
  embeds w (clear_memories c) query v ->
  index_answers w (clear_memories c) = true ->
  get_memory_count (clear_memories c) = 0%nat /\
  collection (clear_memories c) = collection new_codex /\
  (forall e, e ∈ collection c ->
     Index.entry_id e ∉ map Index.entry_id (collection (clear_memories c))) /\
  exists c1, retrieve_memory w query top_k (clear_memories c) = (c1, Ok []).
Proof.
  intros Hb Hk He Hi. split; [reflexivity|]. split; [reflexivity|]. split.
  - intros e _. simpl. apply not_elem_of_nil.
  - eexists. rewrite (retrieve_memory_ok query top_k _ v); [|done..].
    simpl. now rewrite IndexFacts.nearest_empty.
Qed.

End RepositoryClaims.

(** ** The cognitive cycle *)

Section CycleFacts.

Context (w : World).

Lemma input_not_context (text : string) (n : nat) :
  input_belief text <> context_belief n.
Proof. unfold input_belief, context_belief. simpl. discriminate. Qed.

Lemma counted_not_await (n : nat) : formulate_counted n <> await_input.
Proof. unfold formulate_counted, await_input. simpl. discriminate. Qed.

(** [process_sensory_input] on blank text only prints the warning. *)
Lemma process_blank (text : string) (l : SynapticLoop) :
  Text.blank text = true ->
  process_sensory_input w text l = (l, [WarnEmptyInput]).
Proof. intros Hb. unfold process_sensory_input. now rewrite Hb. Qed.

(** [process_sensory_input] when the insertion fails. *)
Lemma process_not_stored (text : string) (l : SynapticLoop) (c1 : Codex)
    (e : error) :
  Text.blank text = false ->
  add_memory w text sensory_metadata (codex l) = (c1, Raise e) ->
  process_sensory_input w text l =
  (mkLoop c1 (beliefs l) (current_intention l),
   [Processing (shown_input text); FailedToStore e]).
Proof.
  intros Hb Hadd. unfold process_sensory_input. now rewrite Hb, Hadd.
Qed.

(** [process_sensory_input] when the insertion succeeds, whatever the lookup
    that follows gives. *)
Lemma process_stored (text : string) (l : SynapticLoop) (c1 c2 : Codex)
    (m : Memory) (r : result (list string)) :
  Text.blank text = false ->
  add_memory w text sensory_metadata (codex l) = (c1, Ok m) ->
  retrieve_memory w text 3 c1 = (c2, r) ->
  let believed := context_beliefs r ∪ ({[input_belief text]} ∪ beliefs l) in
  let intention := Some (formulate_counted (S (get_memory_count (codex l)))) in
  process_sensory_input w text l =
  (mkLoop c2 believed intention,
   [Processing (shown_input text); StoredMemory (id m)]
     ++ lookup_warning r
     ++ [RunningCycle;
         CognitiveState believed intention (S (get_memory_count (codex l)))]).
Proof.
  intros Hb Hadd Hget believed intention.
  assert (Hcount : get_memory_count c2 = S (get_memory_count (codex l))).
  { apply retrieve_memory_collection in Hget.
    apply add_memory_ok in Hadd as (_ & _ & _ & _ & _ & Hrows & _).
    unfold get_memory_count, Index.count.
    rewrite Hget, Hrows, length_app. simpl. lia. }
  unfold process_sensory_input. rewrite Hb, Hadd.
  unfold _update_beliefs. cbn [codex beliefs current_intention]. rewrite Hget.
  subst believed intention.
  destruct r as [[|d ds]|e];
    unfold _run_cycle, _deliberate, _display_cognitive_state;
    cbn [codex beliefs current_intention context_beliefs lookup_warning];
    rewrite Hcount;
    (destruct (decide (_ = ∅)) as [He|_]; [exfalso; set_solver|]);
    rewrite ?(left_id_L ∅ (∪)); reflexivity.
Qed.

End CycleFacts.

(** ** Claims about the cognitive cycle *)

Section CycleClaims.

Context (w : World).

(** On a collection of one row, a lookup that returns, returns one document. *)
Lemma retrieve_from_singleton (query : string) (top_k : Z) (c c1 : Codex)
    (e : Index.Entry) (docs : list string) :
  collection c = [e] ->
  retrieve_memory w query top_k c = (c1, Ok docs) ->
  docs = [Index.entry_document e].
Proof.
  intros Hrows. rewrite retrieve_memory_eq.
  destruct (Text.blank query); [discriminate|].
  destruct (top_k <=? 0)%Z eqn:Hk; [discriminate|].
  destruct (encode w (clock c) query) as [v|]; [|discriminate].
  destruct (index_answers w c); [|discriminate].
  unfold get_memory_count. rewrite Hrows. simpl.
  unfold Index.count. rewrite clamp_to_nat. simpl length.
  replace (Nat.min (Z.to_nat top_k) 1) with 1%nat by lia.
  intros [= _ <-]. reflexivity.
Qed.

(** C2, as amended.  A fresh cycle over an empty repository has no belief and
    no intention.  After one [process_sensory_input] of a text that is not
    empty after trimming and whose insertion succeeds, the intention is the
    variant that mentions the count, 1, of stored memories; the belief set has
    exactly 2 entries, the input belief and the context belief for 1 related
    memory (the input itself, just stored), when the lookup succeeds, and
    exactly 1 entry, the input belief, when the lookup fails. *)
Theorem first_input_on_empty_repository (text : string) (c c1 c2 : Codex)
    (m : Memory) (r : result (list string)) :
  collection c = [] ->
  Text.blank text = false ->
  add_memory w text sensory_metadata c = (c1, Ok m) ->
  retrieve_memory w text 3 c1 = (c2, r) ->
  let l' := fst (process_sensory_input w text (new_loop c)) in
  get_beliefs (new_loop c) = ∅ /\
  get_current_intention (new_loop c) = None /\
  get_current_intention l' = Some (formulate_counted 1) /\
  formulate_counted 1 <> formulate_uncounted /\
  match r with
  | Ok _ =>
      get_beliefs l' = {[input_belief text; context_belief 1]} /\
      size (get_beliefs l') = 2%nat
  | Raise _ =>
      get_beliefs l' = {[input_belief text]} /\
      size (get_beliefs l') = 1%nat
  end.
Proof.
  intros Hrows Hb Hadd Hget l'.
  pose proof (process_stored w text (new_loop c) c1 c2 m r Hb Hadd Hget) as Hp.
  cbv zeta in Hp. subst l'. rewrite Hp. clear Hp. loop_simpl.
  unfold get_memory_count, Index.count. rewrite Hrows. simpl.
  split; [reflexivity|]. split; [reflexivity|]. split; [reflexivity|].
  split; [vm_compute; discriminate|].
  destruct r as [docs|e].
  - apply add_memory_ok in Hadd as (_ & _ & _ & _ & _ & Hrows1 & _).
    rewrite Hrows in Hrows1. simpl in Hrows1.
    rewrite (retrieve_from_singleton _ _ _ _ _ _ Hrows1 Hget). loop_simpl.
    simpl length.
    assert (Heq : ({[context_belief 1]} ∪ ({[input_belief text]} ∪ ∅) : gset string)
                  = {[input_belief text; context_belief 1]}).
    { rewrite (right_id_L ∅ (∪)). apply (comm_L (∪)). }
    rewrite Heq. split; [reflexivity|].
    rewrite size_union, !size_singleton; [reflexivity|].
    pose proof (input_not_context text 1). set_solver.
  - loop_simpl.
    assert (Heq : (∅ ∪ ({[input_belief text]} ∪ ∅) : gset string)
                  = {[input_belief text]}).
    { now rewrite (left_id_L ∅ (∪)), (right_id_L ∅ (∪)). }
    rewrite Heq. split; [reflexivity|]. apply size_singleton.
Qed.

(** C4.  For a text that is not empty after trimming, when the insertion made
    by [process_sensory_input] fails, the failure is one of embedding or of
    storage, the cycle stops there: the failure is reported on the output with
    the error, and beliefs, intention, collection and count are as before. *)
Theorem failed_add_aborts_cycle (text : string) (l : SynapticLoop)
    (c1 : Codex) (e : error) :
  Text.blank text = false ->
  add_memory w text sensory_metadata (codex l) = (c1, Raise e) ->
  let l' := fst (process_sensory_input w text l) in
  let out := snd (process_sensory_input w text l) in
  (kind e = EmbeddingFailure \/ kind e = StorageFailure) /\
  out = [Processing (shown_input text); FailedToStore e] /\
  get_beliefs l' = get_beliefs l /\
  get_current_intention l' = get_current_intention l /\
  collection (codex l') = collection (codex l) /\
  get_memory_count (codex l') = get_memory_count (codex l).
Proof.
  intros Hb Hadd l' out. subst l' out.
  rewrite (process_not_stored w text l c1 e Hb Hadd). loop_simpl.
  apply add_memory_raise in Hadd as [Hrows Hkind].
  split.
  - destruct Hkind as [[-> Hbl]|[[-> _]|[-> _]]]; [congruence|now left|now right].
  - unfold get_memory_count. rewrite Hrows. repeat split; reflexivity.
Qed.

(** C5.  For a text that is not empty after trimming whose insertion
    succeeds, [process_sensory_input] stores the memory (the count grows by
    1) and overwrites the intention whatever the lookup gives; beliefs gain the
    input belief, and the context belief only when the lookup returns
    memories: when the lookup fails they gain the input belief alone and the
    failure is printed. *)
Theorem failed_lookup_tolerated (text : string) (l : SynapticLoop)
    (c1 c2 : Codex) (m : Memory) (r : result (list string)) :
  Text.blank text = false ->
  add_memory w text sensory_metadata (codex l) = (c1, Ok m) ->
  retrieve_memory w text 3 c1 = (c2, r) ->
  let l' := fst (process_sensory_input w text l) in
  let out := snd (process_sensory_input w text l) in
  get_memory_count (codex l') = S (get_memory_count (codex l)) /\
  get_current_intention l'
  = Some (formulate_counted (S (get_memory_count (codex l)))) /\
  match r with
  | Raise e =>
      get_beliefs l' = {[input_belief text]} ∪ get_beliefs l /\
      RetrieveWarning e ∈ out
  | Ok [] => get_beliefs l' = {[input_belief text]} ∪ get_beliefs l
  | Ok (d :: ds) =>
      get_beliefs l'
      = {[context_belief (length (d :: ds))]}
          ∪ ({[input_belief text]} ∪ get_beliefs l)
  end.
Proof.
  intros Hb Hadd Hget l' out. subst l' out.
  pose proof (process_stored w text l c1 c2 m r Hb Hadd Hget) as Hp.
  cbv zeta in Hp. rewrite Hp. clear Hp. loop_simpl.
  split.
  - apply retrieve_memory_collection in Hget.
    apply add_memory_ok in Hadd as (_ & _ & _ & _ & _ & Hrows & _).
    unfold get_memory_count, Index.count.
    rewrite Hget, Hrows, length_app. simpl. lia.
  - split; [reflexivity|].
    destruct r as [[|d ds]|e]; loop_simpl.
    + apply (left_id_L ∅ (∪)).
    + reflexivity.
    + split; [apply (left_id_L ∅ (∪))|].
      right. right. left.
Qed.

(** C9.  [clear_beliefs] empties the belief set and changes nothing else: the
    intention and the repository, count and rows, are as before. *)
Theorem clear_beliefs_frame (l : SynapticLoop) :
  get_beliefs (clear_beliefs l) = ∅ /\
  get_current_intention (clear_beliefs l) = get_current_intention l /\
  codex (clear_beliefs l) = codex l /\
  get_memory_count (codex (clear_beliefs l)) = get_memory_count (codex l) /\
  collection (codex (clear_beliefs l)) = collection (codex l).
Proof. repeat split; reflexivity. Qed.

(** C10.  After a [process_sensory_input] whose text, not empty after
    trimming, is stored, the input belief is held, the belief set is not
    empty, and the intention is set and is not the await-input statement. *)
Theorem intention_never_awaits (text : string) (l : SynapticLoop)
    (c1 : Codex) (m : Memory) :
  Text.blank text = false ->
  add_memory w text sensory_metadata (codex l) = (c1, Ok m) ->
  let l' := fst (process_sensory_input w text l) in
  input_belief text ∈ get_beliefs l' /\
  get_beliefs l' <> ∅ /\
  exists s, get_current_intention l' = Some s /\ s <> await_input.
Proof.
  intros Hb Hadd l'. subst l'.
  destruct (retrieve_memory w text 3 c1) as [c2 r] eqn:Hget.
  pose proof (process_stored w text l c1 c2 m r Hb Hadd Hget) as Hp.
  cbv zeta in Hp. rewrite Hp. clear Hp. loop_simpl.
  split; [set_solver|]. split; [set_solver|].
  eexists. split; [reflexivity|apply counted_not_await].
Qed.

End CycleClaims.

(** ** The claims at concrete inputs *)

Module RunFacts.
Import Worlds Runs.

Example blank_examples :
  Text.blank "" = true /\ Text.blank "   " = true /\ Text.blank " a " = false
  /\ Text.strip "  a b  " = "a b".
Proof. repeat split; reflexivity. Qed.

Example ties_go_to_the_older_row :
  snd (retrieve_memory uncased "Hello" 2 two_hellos) = Ok ["hello"; "Hello"].
Proof. vm_compute. reflexivity. Qed.

Example offline_index_stores_nothing :
  add_memory offline "Hello" ∅ new_codex = (mkCodex [] 2, Raise StoreError).
Proof. reflexivity. Qed.

Example second_input_counts_two :
  let l1 := fst (process_sensory_input uncased "Hello" (new_loop new_codex)) in
  let l2 := fst (process_sensory_input uncased "Hello again" l1) in
  get_current_intention l2 = Some (formulate_counted 2) /\
  size (get_beliefs l2) = 4%nat.
Proof. split; vm_compute; reflexivity. Qed.

End RunFacts.

(** C1, counterexample.  ["hello"] is stored, then ["Hello"], by an embedding
    model that gives both the same embedding.  The second insertion succeeds
    and makes the count grow by 1, and the lookup of ["Hello"] with
    [top_k = 1] that follows returns ["hello"], the older of the two rows
    that are equally near, not ["Hello"]. *)
Lemma retrieve_returns_older_twin :
  let added := add_memory Worlds.uncased "Hello" ∅ Runs.one_hello in
  Text.blank "Hello" = false /\
  (exists m, snd added = Ok m /\ content m = "Hello") /\
  get_memory_count (fst added) = S (get_memory_count Runs.one_hello) /\
  snd (retrieve_memory Worlds.uncased "Hello" 1 (fst added)) = Ok ["hello"] /\
  ["hello"] <> ["Hello"].
Proof.
  cbv zeta. split; [reflexivity|]. split.
  - eexists. split; [vm_compute; reflexivity | reflexivity].
  - split; [reflexivity|]. split; [vm_compute; reflexivity | discriminate].
Qed.

(** C2, counterexample.  After ["Hello"] is processed by a fresh cycle over an
    empty repository, with a model and an index that answer, the belief set
    has 2 entries, not 1, and the intention mentions the count of 1 stored
    memory: it is not the variant without a count. *)
Lemma first_input_gives_two_beliefs :
  let l := new_loop new_codex in
  let l' := fst (process_sensory_input Worlds.uncased "Hello" l) in
  get_beliefs l = ∅ /\
  get_current_intention l = None /\
  get_memory_count (codex l') = 1%nat /\
  size (get_beliefs l') = 2%nat /\
  get_current_intention l'
  = Some "Formulate a response based on recent input and 1 stored memories." /\
  get_current_intention l' <> Some formulate_uncounted.
Proof.
  cbv zeta. split; [reflexivity|]. split; [reflexivity|].
  split; [vm_compute; reflexivity|]. split; [vm_compute; reflexivity|].
  split; [vm_compute; reflexivity | vm_compute; discriminate].
Qed.

(** ** The theorems at concrete inputs *)

(** ["hello"] is stored after ["bye"], whose embedding is orthogonal to its
    own, and is retrieved first. *)
Lemma add_then_retrieve_top1_witness :
  let c := fst (add_memory Worlds.uncased "bye" ∅ new_codex) in
  let c1 := fst (add_memory Worlds.uncased "hello" ∅ c) in
  get_memory_count c1 = S (get_memory_count c) /\
  exists c2, retrieve_memory Worlds.uncased "hello" 1 c1 = (c2, Ok ["hello"]).
Proof.
  intros c c1.
  destruct (add_then_retrieve_top1 Worlds.uncased "hello" ∅ c c1
              (mkMemory 3 "hello" [1%Q; 0%Q] ∅ (inject_Z 3)))
    as [Hcount (c2 & first & Hret & _ & Hdoc)].
  - reflexivity.
  - vm_compute. reflexivity.
  - reflexivity.
  - reflexivity.
  - split; [exact Hcount|]. exists c2. rewrite Hret, Hdoc; [reflexivity|].
    intros e He _. vm_compute in He.
    apply list_elem_of_singleton in He. subst e. reflexivity.
Defined.

Lemma first_input_on_empty_repository_witness :
  let l' :=
    fst (process_sensory_input Worlds.uncased "Hello" (new_loop new_codex)) in
  get_beliefs (new_loop new_codex) = ∅ /\
  get_current_intention (new_loop new_codex) = None /\
  get_current_intention l' = Some (formulate_counted 1) /\
  formulate_counted 1 <> formulate_uncounted /\
  get_beliefs l' = {[input_belief "Hello"; context_belief 1]} /\
  size (get_beliefs l') = 2%nat.
Proof.
  apply (first_input_on_empty_repository Worlds.uncased "Hello" new_codex
           (Runs.hello_stored [1%Q; 0%Q] 2) (Runs.hello_stored [1%Q; 0%Q] 4)
           (Runs.hello_memory [1%Q; 0%Q]) (Ok ["Hello"])).
  - reflexivity.
  - reflexivity.
  - vm_compute. reflexivity.
  - vm_compute. reflexivity.
Defined.


Lemma failed_add_aborts_cycle_witness :
  let l := new_loop new_codex in
  let l' := fst (process_sensory_input Worlds.deaf "Hello" l) in
  let out := snd (process_sensory_input Worlds.deaf "Hello" l) in
  (kind EmbeddingError = EmbeddingFailure \/ kind EmbeddingError = StorageFailure) /\
  out = [Processing (shown_input "Hello"); FailedToStore EmbeddingError] /\
  get_beliefs l' = get_beliefs l /\
  get_current_intention l' = get_current_intention l /\
  collection (codex l') = collection (codex l) /\
  get_memory_count (codex l') = get_memory_count (codex l).
Proof.
  apply (failed_add_aborts_cycle Worlds.deaf "Hello" (new_loop new_codex)
           (mkCodex [] 1) EmbeddingError).
  - reflexivity.
  - reflexivity.
Defined.

Lemma failed_lookup_tolerated_witness :
  let l := new_loop new_codex in
  let l' := fst (process_sensory_input Worlds.fading "Hello" l) in
  let out := snd (process_sensory_input Worlds.fading "Hello" l) in
  get_memory_count (codex l') = S (get_memory_count (codex l)) /\
  get_current_intention l'
  = Some (formulate_counted (S (get_memory_count (codex l)))) /\
  get_beliefs l' = {[input_belief "Hello"]} ∪ get_beliefs l /\
  RetrieveWarning QueryEmbeddingError ∈ out.
Proof.
  apply (failed_lookup_tolerated Worlds.fading "Hello" (new_loop new_codex)
           (Runs.hello_stored [1%Q] 2) (Runs.hello_stored [1%Q] 3)
           (Runs.hello_memory [1%Q]) (Raise QueryEmbeddingError)).
  - reflexivity.
  - vm_compute. reflexivity.
  - vm_compute. reflexivity.
Defined.

Lemma blank_text_rejected_witness :
  add_memory Worlds.uncased "   " ∅ Runs.one_hello
  = (Runs.one_hello, Raise EmptyContent) /\
  kind EmptyContent = InvalidInput /\
  retrieve_memory Worlds.uncased "   " 5 Runs.one_hello
  = (Runs.one_hello, Raise EmptyQuery) /\
  kind EmptyQuery = InvalidInput.
Proof.
  apply (blank_text_rejected Worlds.uncased "   " ∅ 5 Runs.one_hello).
  reflexivity.
Defined.

Lemma top_k_checked_and_clamped_witness :
  (retrieve_memory Worlds.uncased "hello" 0 Runs.two_hellos
   = (Runs.two_hellos, Raise BadTopK) /\ kind BadTopK = InvalidInput) /\
  (exists c1 docs,
     retrieve_memory Worlds.uncased "hello" 10 Runs.two_hellos = (c1, Ok docs) /\
     length docs = Nat.min (Z.to_nat 10) (get_memory_count Runs.two_hellos) /\
     (length docs <= get_memory_count Runs.two_hellos)%nat /\
     (get_memory_count Runs.two_hellos = 0%nat -> docs = [])).
Proof.
  split.
  - apply (top_k_checked_and_clamped Worlds.uncased "hello" 0 Runs.two_hellos);
      [reflexivity | discriminate].
  - apply (proj2 (top_k_checked_and_clamped Worlds.uncased "hello" 10
                    Runs.two_hellos eq_refl) eq_refl [1%Q; 0%Q]);
      reflexivity.
Defined.

Lemma clear_memories_resets_witness :
  let c := clear_memories Runs.two_hellos in
  get_memory_count c = 0%nat /\
  collection c = collection new_codex /\
  (forall e, e ∈ collection Runs.two_hellos ->
     Index.entry_id e ∉ map Index.entry_id (collection c)) /\
  exists c1, retrieve_memory Worlds.uncased "hello" 5 c = (c1, Ok []).
Proof.
  apply (clear_memories_resets Worlds.uncased Runs.two_hellos "hello" 5
           [1%Q; 0%Q]); reflexivity.
Defined.

Lemma intention_never_awaits_witness :
  let l' :=
    fst (process_sensory_input Worlds.uncased "Hello" (new_loop new_codex)) in
  input_belief "Hello" ∈ get_beliefs l' /\
  get_beliefs l' <> ∅ /\
  exists s, get_current_intention l' = Some s /\ s <> await_input.
Proof.
  apply (intention_never_awaits Worlds.uncased "Hello" (new_loop new_codex)
           (Runs.hello_stored [1%Q; 0%Q] 2) (Runs.hello_memory [1%Q; 0%Q])).
  - reflexivity.
  - vm_compute. reflexivity.
Defined.

(** * Further properties of the code *)

(** ** Trimming and lower-casing *)

Module WordsFacts.
Import Text Words.

Lemma isspace_lower_char (c : ascii) : isspace (lower_char c) = isspace c.
Proof. destruct c as [[] [] [] [] [] [] [] []]; reflexivity. Qed.

Lemma lower_char_idem (c : ascii) : lower_char (lower_char c) = lower_char c.
Proof. destruct c as [[] [] [] [] [] [] [] []]; reflexivity. Qed.

Lemma lower_idem (s : string) : lower (lower s) = lower s.
Proof.
  induction s as [|c s IH]; simpl; [reflexivity|].
  now rewrite lower_char_idem, IH.
Qed.

Lemma lstrip_lower (s : string) : lstrip (lower s) = lower (lstrip s).
Proof.
  induction s as [|c s IH]; simpl; [reflexivity|].
  rewrite isspace_lower_char. destruct (isspace c); [exact IH | reflexivity].
Qed.

Lemma rstrip_lower (s : string) : rstrip (lower s) = lower (rstrip s).
Proof.
  induction s as [|c s IH]; simpl; [reflexivity|].
  rewrite IH, isspace_lower_char.
  destruct (rstrip s); simpl; [destruct (isspace c)|]; reflexivity.
Qed.

Lemma strip_lower (s : string) : strip (lower s) = lower (strip s).
Proof. unfold strip. now rewrite lstrip_lower, rstrip_lower. Qed.

Lemma rstrip_idem (s : string) : rstrip (rstrip s) = rstrip s.
Proof.
  induction s as [|c s IH]; simpl; [reflexivity|].
  destruct (rstrip s) as [|d r] eqn:Hr.
  - destruct (isspace c) eqn:Hc; simpl; [reflexivity | now rewrite Hc].
  - change (rstrip (String c (String d r))) with
      (match rstrip (String d r) with
       | EmptyString => if isspace c then EmptyString else String c EmptyString
       | String _ _ as r' => String c r'
       end).
    now rewrite IH.
Qed.

Lemma lstrip_starts_clean (s : string) : starts_clean (lstrip s).
Proof.
  induction s as [|c s IH]; simpl; [exact I|].
  destruct (isspace c) eqn:Hc; [exact IH | exact Hc].
Qed.

Lemma rstrip_starts_clean (s : string) :
  starts_clean s -> starts_clean (rstrip s).
Proof.
  destruct s as [|c s]; simpl; [trivial|]. intros Hc.
  destruct (rstrip s); [rewrite Hc|]; exact Hc.
Qed.

Lemma lstrip_clean (s : string) : starts_clean s -> lstrip s = s.
Proof. destruct s as [|c s]; simpl; [trivial|]. now intros ->. Qed.

Lemma strip_idem (s : string) : strip (strip s) = strip s.
Proof.
  unfold strip.
  rewrite (lstrip_clean (rstrip (lstrip s))).
  - apply rstrip_idem.
  - apply rstrip_starts_clean, lstrip_starts_clean.
Qed.

(** Lower-casing a trimmed string leaves it trimmed. *)
Lemma strip_lower_strip (s : string) :
  strip (lower (strip s)) = lower (strip s).
Proof. now rewrite strip_lower, strip_idem. Qed.

Lemma strip_blank (s : string) : strip s = EmptyString <-> blank s = true.
Proof.
  unfold blank. destruct (strip s); split; intros H; try reflexivity;
    discriminate.
Qed.

Lemma blank_strip (s : string) : blank (strip s) = blank s.
Proof. unfold blank. now rewrite strip_idem. Qed.

End WordsFacts.

(** ** More on the repository *)

Section RepositoryExtras.

Context (w : World).

(** X1.  [retrieve_memory] only reads: whatever the query, [top_k] and the
    outcome, the collection and the count are as before. *)
Theorem retrieve_memory_read_only (query : string) (top_k : Z) (c : Codex) :
  collection (fst (retrieve_memory w query top_k c)) = collection c /\
  get_memory_count (fst (retrieve_memory w query top_k c)) = get_memory_count c.
Proof.
  destruct (retrieve_memory w query top_k c) as [c1 r] eqn:Hget.
  apply retrieve_memory_collection in Hget. simpl.
  unfold get_memory_count. now rewrite Hget.
Qed.


(** The metadata of the row of a memory, key by key. *)
Lemma entry_metadata_lookup (m : Memory) (key : string) :
  Index.entry_metadata (entry_of_memory m) !! key =
  match metadata m !! key with
  | Some x => Some x
  | None =>
      if decide (key = "timestamp") then Some (MNum (timestamp m)) else None
  end.
Proof.
  unfold entry_of_memory. simpl. rewrite lookup_union.
  destruct (metadata m !! key) as [x|] eqn:Hk.
  - now rewrite (union_Some_l x).
  - rewrite (left_id_L None (∪)).
    destruct (decide (key = "timestamp")) as [->|Hne].
    + apply lookup_singleton_eq.
    + now apply lookup_singleton_ne.
Qed.

(** X3.  The metadata stored with a memory are the metadata given, plus the
    creation time under ["timestamp"] unless the metadata given already have
    that key, in which case theirs is kept. *)
Theorem stored_metadata_lookup (text : string) (meta : gmap string MetaVal)
    (c c1 : Codex) (m : Memory) (key : string) :
  add_memory w text meta c = (c1, Ok m) ->
  last (collection c1) = Some (entry_of_memory m) /\
  timestamp m = time w (id m) /\
  Index.entry_metadata (entry_of_memory m) !! key =
  match meta !! key with
  | Some x => Some x
  | None =>
      if decide (key = "timestamp") then Some (MNum (timestamp m)) else None
  end.
Proof.
  intros Hadd.
  pose proof (add_memory_ok w _ _ _ _ _ Hadd) as (_ & _ & _ & _ & Hm & Hrows & _).
  split; [rewrite Hrows; apply last_snoc|].
  split.
  - rewrite add_memory_eq in Hadd.
    destruct (Text.blank text); [discriminate|].
    destruct (encode w (clock c) text); [|discriminate]. simpl in Hadd.
    destruct (index_answers w c); [|discriminate].
    now injection Hadd as _ <-.
  - rewrite entry_metadata_lookup. now rewrite Hm.
Qed.

(** X4.  The repository never stores a text that is empty after trimming:
    if no stored document is, none is after [add_memory], whatever it is
    given and however it ends. *)
Theorem add_memory_keeps_documents_non_blank (text : string)
    (meta : gmap string MetaVal) (c : Codex) :
  no_blank_document c ->
  no_blank_document (fst (add_memory w text meta c)).
Proof.
  unfold no_blank_document. intros Hc.
  destruct (add_memory w text meta c) as [c1 [m|e]] eqn:Hadd; simpl.
  - apply add_memory_ok in Hadd as (Hb & _ & _ & Hcontent & _ & Hrows & _).
    rewrite Hrows. apply Forall_app. split; [assumption|].
    constructor; [|constructor]. simpl. now rewrite Hcontent.
  - apply add_memory_raise in Hadd as [Hrows _]. now rewrite Hrows.
Qed.

(** A lookup that returns, returns no more documents than [top_k] and than
    are stored. *)
Lemma retrieve_memory_length (query : string) (top_k : Z) (c c1 : Codex)
    (docs : list string) :
  retrieve_memory w query top_k c = (c1, Ok docs) ->
  (Z.of_nat (length docs) <= top_k)%Z /\
  (length docs <= get_memory_count c)%nat.
Proof.
  rewrite retrieve_memory_eq.
  destruct (Text.blank query); [discriminate|].
  destruct (top_k <=? 0)%Z eqn:Hk; [discriminate|].
  destruct (encode w (clock c) query) as [v|]; [|discriminate].
  destruct (index_answers w c); [|discriminate].
  intros [= _ <-].
  rewrite length_map, IndexFacts.nearest_length.
  unfold get_memory_count, Index.count. lia.
Qed.

End RepositoryExtras.

(** ** More on the cognitive cycle *)

Section CycleExtras.

Context (w : World).

(** The three ways [process_sensory_input] can go. *)
Lemma process_cases (text : string) (l : SynapticLoop) :
  (Text.blank text = true /\
   process_sensory_input w text l = (l, [WarnEmptyInput]))
  \/ (Text.blank text = false /\
      exists c1 e,
        add_memory w text sensory_metadata (codex l) = (c1, Raise e) /\
        process_sensory_input w text l =
        (mkLoop c1 (beliefs l) (current_intention l),
         [Processing (shown_input text); FailedToStore e]))
  \/ (Text.blank text = false /\
      exists c1 m c2 r,
        add_memory w text sensory_metadata (codex l) = (c1, Ok m) /\
        retrieve_memory w text 3 c1 = (c2, r) /\
        fst (process_sensory_input w text l) =
        mkLoop c2 (context_beliefs r ∪ ({[input_belief text]} ∪ beliefs l))
          (Some (formulate_counted (S (get_memory_count (codex l)))))).
Proof.
  destruct (Text.blank text) eqn:Hb.
  - left. split; [reflexivity | now apply process_blank].
  - right.
    destruct (add_memory w text sensory_metadata (codex l)) as [c1 [m|e]] eqn:Hadd.
    + right. split; [reflexivity|].
      destruct (retrieve_memory w text 3 c1) as [c2 r] eqn:Hget.
      exists c1, m, c2, r. split; [reflexivity|]. split; [exact Hget|].
      pose proof (process_stored w text l c1 c2 m r Hb Hadd Hget) as Hp.
      cbv zeta in Hp. now rewrite Hp.
    + left. split; [reflexivity|]. exists c1, e. split; [reflexivity|].
      now apply process_not_stored.
Qed.

(** X5.  A text made of whitespace only is ignored: [process_sensory_input]
    prints the warning and leaves the cycle, repository included, exactly as
    it was. *)
Theorem whitespace_input_ignored (text : string) (l : SynapticLoop) :
  Text.all_space text = true ->
  process_sensory_input w text l = (l, [WarnEmptyInput]).
Proof.
  intros Hs. apply process_blank. now rewrite TextFacts.blank_all_space.
Qed.

(** The beliefs held before a call are held after it. *)
Lemma beliefs_kept (text : string) (l : SynapticLoop) :
  beliefs l ⊆ beliefs (fst (process_sensory_input w text l)).
Proof.
  destruct (process_cases text l)
    as [[_ ->]|[(_ & c1 & e & _ & ->)|(_ & c1 & m & c2 & r & _ & _ & ->)]];
    loop_simpl; [reflexivity | reflexivity |].
  etransitivity; [|apply union_subseteq_r]. apply union_subseteq_r.
Qed.

(** X6.  [process_sensory_input] never drops a belief nor an intention:
    whatever the text and however the call goes, the beliefs held before are
    held after, and an intention that was set is still set. *)
Theorem beliefs_only_grow (text : string) (l : SynapticLoop) :
  get_beliefs l ⊆ get_beliefs (fst (process_sensory_input w text l)) /\
  (get_current_intention l <> None ->
   get_current_intention (fst (process_sensory_input w text l)) <> None).
Proof.
  destruct (process_cases text l)
    as [[_ ->]|[(_ & c1 & e & _ & ->)|(_ & c1 & m & c2 & r & _ & _ & ->)]];
    loop_simpl.
  - split; [reflexivity | trivial].
  - split; [reflexivity | trivial].
  - split; [|discriminate].
    intros b Hb. apply elem_of_union_r, elem_of_union_r. exact Hb.
Qed.

(** A belief held after a call was held before, or is the input belief of a
    text that is not empty after trimming, or is a context belief for 1, 2
    or 3 memories. *)
Lemma gained_belief (text : string) (l : SynapticLoop) (b : string) :
  b ∈ get_beliefs (fst (process_sensory_input w text l)) ->
  b ∈ get_beliefs l \/ (b = input_belief text /\ Text.blank text = false) \/
  exists n, (1 <= n <= 3)%nat /\ b = context_belief n.
Proof.
  destruct (process_cases text l)
    as [[_ ->]|[(_ & c1 & e & _ & ->)|(Hbl & c1 & m & c2 & r & _ & Hget & ->)]];
    loop_simpl; [now left | now left |].
  intros Hb. apply elem_of_union in Hb as [Hb|Hb].
  - right. right. destruct r as [[|d ds]|e]; simpl in Hb;
      [now apply elem_of_empty in Hb | | now apply elem_of_empty in Hb].
    apply elem_of_singleton in Hb.
    apply retrieve_memory_length in Hget as [Hk _].
    exists (length (d :: ds)). split; [simpl in *; lia | exact Hb].
  - apply elem_of_union in Hb as [Hb|Hb]; [|now left].
    right. left. split; [now apply elem_of_singleton in Hb | exact Hbl].
Qed.

(** The beliefs held after a call are among those held before, the input
    belief of the text and one context belief. *)
Lemma beliefs_within (text : string) (l : SynapticLoop) :
  exists n, (1 <= n <= 3)%nat /\
    get_beliefs (fst (process_sensory_input w text l))
    ⊆ get_beliefs l ∪ {[input_belief text; context_belief n]}.
Proof.
  destruct (process_cases text l)
    as [[_ ->]|[(_ & c1 & e & Hadd & ->)|(Hb & c1 & m & c2 & r & Hadd & Hget & ->)]];
    loop_simpl.
  - exists 1%nat. split; [lia | apply union_subseteq_l].
  - exists 1%nat. split; [lia | apply union_subseteq_l].
  - destruct r as [[|d ds]|e]; loop_simpl.
    + exists 1%nat. split; [lia|].
      intros x. rewrite !elem_of_union, elem_of_empty. tauto.
    + apply retrieve_memory_length in Hget as [Hk _].
      exists (length (d :: ds)). split; [simpl in *; lia|].
      intros x. rewrite !elem_of_union. tauto.
    + exists 1%nat. split; [lia|].
      intros x. rewrite !elem_of_union, elem_of_empty. tauto.
Qed.

Lemma size_pair (a b : string) : (size ({[a; b]} : gset string) <= 2)%nat.
Proof.
  rewrite size_union_alt, size_singleton.
  pose proof (subseteq_size ({[b]} ∖ {[a]} : gset string) {[b]}) as Hs.
  rewrite size_singleton in Hs.
  assert (({[b]} ∖ {[a]} : gset string) ⊆ {[b]}) as Hd.
  { intros x Hx. now apply elem_of_difference in Hx as [Hx _]. }
  specialize (Hs Hd). lia.
Qed.

(** X7.  One call of [process_sensory_input] adds at most two beliefs: the
    beliefs held after it are among those held before, the input belief of
    the text and the context belief for one number of related memories, 1, 2
    or 3; so the belief set grows by 2 at most. *)
Theorem beliefs_gained (text : string) (l : SynapticLoop) :
  exists n, (1 <= n <= 3)%nat /\
    get_beliefs (fst (process_sensory_input w text l))
    ⊆ get_beliefs l ∪ {[input_belief text; context_belief n]} /\
    (size (get_beliefs (fst (process_sensory_input w text l)))
     <= size (get_beliefs l) + 2)%nat.
Proof.
  destruct (beliefs_within text l) as (n & Hn & Hs).
  exists n. split; [exact Hn|]. split; [exact Hs|].
  apply subseteq_size in Hs. rewrite size_union_alt in Hs.
  pose proof (size_pair (input_belief text) (context_belief n)) as Hp.
  pose proof (subseteq_size
                (({[input_belief text; context_belief n]} : gset string)
                   ∖ get_beliefs l)
                {[input_belief text; context_belief n]}) as Hd.
  assert ((({[input_belief text; context_belief n]} : gset string)
             ∖ get_beliefs l)
          ⊆ {[input_belief text; context_belief n]}) as Hsub.
  { intros x Hx. now apply elem_of_difference in Hx as [Hx _]. }
  specialize (Hd Hsub). lia.
Qed.

(** The rows a call appends: none, or one holding the text. *)
Lemma appended_rows (text : string) (l : SynapticLoop) :
  exists rows,
    collection (codex (fst (process_sensory_input w text l)))
    = collection (codex l) ++ rows /\
    (length rows <= 1)%nat /\
    Forall (fun row =>
              Index.entry_document row = text /\ Text.blank text = false)
      rows.
Proof.
  destruct (process_cases text l)
    as [[_ ->]|[(_ & c1 & e & Hadd & ->)|(Hb & c1 & m & c2 & r & Hadd & Hget & ->)]];
    loop_simpl.
  - exists []. rewrite app_nil_r. repeat split; [simpl; lia | constructor].
  - exists []. apply add_memory_raise in Hadd as [-> _].
    rewrite app_nil_r. repeat split; [simpl; lia | constructor].
  - exists [entry_of_memory m].
    apply retrieve_memory_collection in Hget. rewrite Hget.
    apply add_memory_ok in Hadd as (_ & _ & _ & Hc & _ & Hrows & _).
    split; [exact Hrows|]. split; [simpl; lia|].
    constructor; [|constructor]. split; [exact Hc | exact Hb].
Qed.

(** X8.  [process_sensory_input] only ever appends to the memories: the
    collection after it is the collection before it followed by no row or by
    one row, whose document is the text, which is then not empty after
    trimming, and whose metadata mark it as a sensory input of the user. *)
Theorem memories_append_only (text : string) (l : SynapticLoop) :
  exists rows,
    collection (codex (fst (process_sensory_input w text l)))
    = collection (codex l) ++ rows /\
    (length rows <= 1)%nat /\
    Forall (fun row =>
              Index.entry_document row = text /\
              Text.blank text = false /\
              Index.entry_metadata row !! "type" = Some (MStr "sensory_input") /\
              Index.entry_metadata row !! "source" = Some (MStr "user_input"))
      rows.
Proof.
  destruct (process_cases text l)
    as [[_ ->]|[(_ & c1 & e & Hadd & ->)|(Hb & c1 & m & c2 & r & Hadd & Hget & ->)]];
    loop_simpl.
  - exists []. rewrite app_nil_r. repeat split; [simpl; lia | constructor].
  - exists []. apply add_memory_raise in Hadd as [-> _].
    rewrite app_nil_r. repeat split; [simpl; lia | constructor].
  - exists [entry_of_memory m].
    apply retrieve_memory_collection in Hget. rewrite Hget.
    apply add_memory_ok in Hadd as (_ & _ & _ & Hc & Hm & Hrows & _).
    split; [exact Hrows|]. split; [simpl; lia|].
    constructor; [|constructor].
    split; [exact Hc|]. split; [exact Hb|].
    rewrite !entry_metadata_lookup, Hm. split; reflexivity.
Qed.

End CycleExtras.

(** ** Sequences of calls *)

Section RunExtras.

Context (w : World).

Lemma string_length_app (s1 s2 : string) :
  String.length (s1 +:+ s2) = (String.length s1 + String.length s2)%nat.
Proof. induction s1 as [|c s1 IH]; simpl; [reflexivity | now rewrite IH]. Qed.

Lemma pretty_N_go_nonempty (x : N) (s : string) :
  s <> EmptyString -> pretty_N_go x s <> EmptyString.
Proof.
  revert s. induction (N.lt_wf_0 x) as [x _ IH]. intros s Hs.
  destruct (decide (x = 0%N)) as [->|Hx].
  - now rewrite pretty_N_go_0.
  - rewrite pretty_N_go_step by lia.
    apply IH; [apply N.div_lt; lia | discriminate].
Qed.

Lemma pretty_nat_nonempty (n : nat) : pretty n <> EmptyString.
Proof.
  unfold pretty, pretty_nat, pretty, pretty_N.
  destruct (decide (N.of_nat n = 0%N)); [discriminate|].
  rewrite pretty_N_go_step by lia.
  apply pretty_N_go_nonempty. discriminate.
Qed.

Lemma counted_not_uncounted (k : nat) :
  formulate_counted k <> formulate_uncounted.
Proof.
  unfold formulate_counted, formulate_uncounted. intros H.
  apply (f_equal String.length) in H.
  rewrite !string_length_app in H. simpl in H.
  pose proof (pretty_nat_nonempty k) as Hk.
  destruct (pretty k); [congruence | simpl in H; lia].
Qed.

Lemma run_cons (l : SynapticLoop) (c : call) (calls : list call) :
  run w l (c :: calls) = run w (step w l c) calls.
Proof. reflexivity. Qed.

Lemma step_intention_counts (l : SynapticLoop) (c : call) :
  intention_counts l -> intention_counts (step w l c).
Proof.
  intros Hl. destruct c as [text|]; simpl; [|exact Hl].
  destruct (process_cases w text l)
    as [[_ ->]|[(_ & c1 & e & Hadd & ->)|(_ & c1 & m & c2 & r & Hadd & Hget & ->)]];
    simpl.
  - exact Hl.
  - apply add_memory_raise in Hadd as [Hrows _].
    unfold intention_counts, get_memory_count in *. simpl. now rewrite Hrows.
  - right. exists (S (get_memory_count (codex l))). simpl.
    apply retrieve_memory_collection in Hget.
    apply add_memory_ok in Hadd as (_ & _ & _ & _ & _ & Hrows & _).
    unfold get_memory_count, Index.count.
    rewrite Hget, Hrows, length_app. simpl. split; [lia | reflexivity].
Qed.

(** X9.  Whatever calls of [process_sensory_input] and [clear_beliefs] are
    made on a fresh cycle, in whatever world, the intention is absent or is
    the statement counting [k] stored memories for some [k] between 1 and the
    current count; it is never the await-input statement nor the statement
    without a count. *)
Theorem run_intention_counts (c : Codex) (calls : list call) :
  let l := run w (new_loop c) calls in
  intention_counts l /\
  get_current_intention l <> Some await_input /\
  get_current_intention l <> Some formulate_uncounted.
Proof.
  cbv zeta.
  assert (Hinv : intention_counts (run w (new_loop c) calls)).
  { assert (H0 : intention_counts (new_loop c)) by now left.
    revert H0. generalize (new_loop c). induction calls as [|k calls IH];
      intros l Hl; [exact Hl|].
    rewrite run_cons. apply IH. now apply step_intention_counts. }
  split; [exact Hinv|]. unfold get_current_intention.
  destruct Hinv as [->|(k & _ & ->)]; [split; discriminate|].
  split; intros H; apply (inj Some) in H.
  - now apply counted_not_await in H.
  - now apply counted_not_uncounted in H.
Qed.

Lemma step_beliefs (l : SynapticLoop) (c : call) (b : string) :
  b ∈ beliefs (step w l c) ->
  b ∈ beliefs l
  \/ (exists t, c = ProcessInput t /\ Text.blank t = false /\ b = input_belief t)
  \/ exists n, (1 <= n <= 3)%nat /\ b = context_belief n.
Proof.
  destruct c as [text|]; simpl.
  - intros Hb. apply (gained_belief w) in Hb as [Hb|[[Hb Hbl]|Hb]].
    + now left.
    + right. left. exists text. auto.
    + right. right. exact Hb.
  - intros Hb. now apply elem_of_empty in Hb.
Qed.

(** X10.  After any calls on a fresh cycle, every belief held is the input
    belief of a text that was passed to [process_sensory_input] and is not
    empty after trimming, or the context belief for 1, 2 or 3 related
    memories. *)
Theorem run_beliefs_from_inputs (c : Codex) (calls : list call) (b : string) :
  b ∈ get_beliefs (run w (new_loop c) calls) ->
  (exists t, t ∈ inputs calls /\ Text.blank t = false /\ b = input_belief t)
  \/ exists n, (1 <= n <= 3)%nat /\ b = context_belief n.
Proof.
  unfold get_beliefs.
  assert (Hgen : forall l,
    b ∈ beliefs (run w l calls) ->
    b ∈ beliefs l
    \/ (exists t, t ∈ inputs calls /\ Text.blank t = false /\ b = input_belief t)
    \/ exists n, (1 <= n <= 3)%nat /\ b = context_belief n).
  { induction calls as [|k calls IH]; intros l Hb; [now left|].
    rewrite run_cons in Hb. apply IH in Hb as [Hb|[(t & Ht & Hbl & ->)|Hb]].
    - apply step_beliefs in Hb as [Hb|[(t & -> & Hbl & ->)|Hb]]; auto.
      right. left. exists t. split; [|auto]. simpl. now left.
    - right. left. exists t. split; [|auto].
      unfold inputs. simpl. destruct k; [now right | assumption].
    - auto. }
  intros Hb. apply Hgen in Hb as [Hb|Hb]; [|exact Hb].
  now apply elem_of_empty in Hb.
Qed.

Lemma step_rows (l : SynapticLoop) (c : call) :
  exists rows,
    collection (codex (step w l c)) = collection (codex l) ++ rows /\
    Forall (fun row =>
              Text.blank (Index.entry_document row) = false /\
              c = ProcessInput (Index.entry_document row)) rows /\
    (length rows <= length (inputs [c]))%nat.
Proof.
  destruct c as [text|]; simpl.
  - destruct (appended_rows w text l) as (rows & Hrows & Hlen & Hall).
    exists rows. split; [exact Hrows|]. split; [|exact Hlen].
    eapply Forall_impl; [exact Hall|]. simpl.
    intros row [-> Hbl]. split; [exact Hbl | reflexivity].
  - exists []. rewrite app_nil_r. repeat split; [constructor | simpl; lia].
Qed.

(** X11.  Calls on a cycle never delete or alter a stored memory: after any
    calls the collection is the initial one followed by new rows, no more
    than there were inputs, each holding as its document one of the input
    texts, not empty after trimming. *)
Theorem run_memories_append_only (l : SynapticLoop) (calls : list call) :
  exists rows,
    collection (codex (run w l calls)) = collection (codex l) ++ rows /\
    (length rows <= length (inputs calls))%nat /\
    Forall (fun row =>
              Index.entry_document row ∈ inputs calls /\
              Text.blank (Index.entry_document row) = false) rows.
Proof.
  revert l. induction calls as [|k calls IH]; intros l.
  - exists []. rewrite app_nil_r. repeat split; [simpl; lia | constructor].
  - rewrite run_cons.
    destruct (IH (step w l k)) as (rows2 & Hrows2 & Hlen2 & Hall2).
    destruct (step_rows l k) as (rows1 & Hrows1 & Hall1 & Hlen1).
    exists (rows1 ++ rows2). split; [|split].
    + now rewrite Hrows2, Hrows1, app_assoc.
    + rewrite length_app.
      change (k :: calls) with ([k] ++ calls).
      unfold inputs in *. rewrite omap_app, length_app. lia.
    + apply Forall_app. split.
      * eapply Forall_impl; [exact Hall1|]. simpl.
        intros row [Hbl ->]. split; [|exact Hbl]. simpl. now left.
      * eapply Forall_impl; [exact Hall2|]. simpl.
        intros row [Hin Hbl]. split; [|exact Hbl].
        unfold inputs. simpl. destruct k; [now right | assumption].
Qed.

End RunExtras.

(** ** The printed input *)

Section ShownInput.

Lemma prefix_length (n : nat) (s : string) :
  String.length (Text.prefix n s) = Nat.min n (String.length s).
Proof.
  revert s. induction n as [|n IH]; intros [|c s]; simpl; try reflexivity.
  now rewrite IH.
Qed.

Lemma prefix_all (n : nat) (s : string) :
  (String.length s <= n)%nat -> Text.prefix n s = s.
Proof.
  revert s. induction n as [|n IH]; intros [|c s]; simpl; try reflexivity.
  - lia.
  - intros H. rewrite IH; [reflexivity | lia].
Qed.

Lemma string_app_empty (s : string) : s +:+ EmptyString = s.
Proof.
  induction s as [|c s IH]; [reflexivity|].
  change (String c (s +:+ EmptyString) = String c s). now f_equal.
Qed.

(** X12.  The input is printed whole when it has at most 100 characters,
    and otherwise cut to its first 100 characters followed by three dots: what
    is printed never has more than 103 characters. *)
Theorem shown_input_bounded (text : string) :
  shown_input text
  = (if (100 <? String.length text)%nat
     then Text.prefix 100 text +:+ "..." else text) /\
  (String.length (shown_input text) <= 103)%nat.
Proof.
  unfold shown_input.
  destruct (100 <? String.length text)%nat eqn:Hlen; cbv iota.
  - split; [reflexivity|].
    rewrite string_length_app, prefix_length.
    change (String.length "...") with 3%nat. lia.
  - apply Nat.ltb_ge in Hlen.
    rewrite string_app_empty, prefix_all by exact Hlen.
    split; [reflexivity | lia].
Qed.

End ShownInput.

(** ** The command line *)

Section CliExtras.
Import Cli.

Context (w : World).

Lemma lower_empty (s : string) :
  Words.lower s = EmptyString -> s = EmptyString.
Proof. destruct s; [reflexivity | discriminate]. Qed.

Lemma quits_not_empty (u : string) :
  Words.lower u ∈ ["quit"; "exit"] -> u <> EmptyString.
Proof.
  intros Hq ->. simpl in Hq.
  repeat (apply elem_of_cons in Hq as [Hq|Hq]; [discriminate|]).
  now apply elem_of_nil in Hq.
Qed.

(** [handle_special_command] on a trimmed command: a quit command is
    answered by the thanks alone; any other command is not answered by the
    thanks, prints no empty-input warning and leaves the repository alone. *)
Lemma handle_cases (agent : SynapticLoop) (s : string) :
  let u := Text.strip s in
  ((Words.lower u ∈ ["quit"; "exit"]) /\
   handle_special_command agent u = (agent, [ThankYou], true))
  \/ ((Words.lower u ∉ ["quit"; "exit"]) /\
      exists a1 out1 sp,
        handle_special_command agent u = (a1, out1, sp) /\
        (ThankYou ∉ out1) /\ (Agent WarnEmptyInput ∉ out1) /\
        codex a1 = codex agent).
Proof.
  cbv zeta. unfold handle_special_command.
  rewrite WordsFacts.strip_lower, WordsFacts.strip_idem.
  destruct (decide (Words.lower (Text.strip s) ∈ ["quit"; "exit"])) as [Hq|Hq];
    [left; split; [exact Hq | reflexivity]|].
  right. split; [exact Hq|].
  repeat case_decide; eexists _, _, _; (split; [reflexivity|]);
    unfold _display_cognitive_state; simpl;
    repeat split;
    intros Hin;
    repeat (apply elem_of_cons in Hin as [Hin|Hin]; [discriminate|]);
    now apply elem_of_nil in Hin.
Qed.

(** A text that is not empty after trimming draws no empty-input warning. *)
Lemma process_no_warning (text : string) (l : SynapticLoop) :
  Text.blank text = false ->
  WarnEmptyInput ∉ snd (process_sensory_input w text l).
Proof.
  intros Hb.
  destruct (add_memory w text sensory_metadata (codex l)) as [c1 [m|e]] eqn:Hadd.
  - destruct (retrieve_memory w text 3 c1) as [c2 r] eqn:Hget.
    pose proof (process_stored w text l c1 c2 m r Hb Hadd Hget) as Hp.
    cbv zeta in Hp. rewrite Hp. simpl.
    destruct r as [docs|e]; simpl; intros H;
      repeat (apply elem_of_cons in H as [H|H]; [discriminate|]);
      now apply elem_of_nil in H.
  - rewrite (process_not_stored w text l c1 e Hb Hadd). simpl. intros H.
    repeat (apply elem_of_cons in H as [H|H]; [discriminate|]).
    now apply elem_of_nil in H.
Qed.

Lemma strip_not_blank (s : string) :
  Text.strip s <> EmptyString -> Text.blank (Text.strip s) = false.
Proof.
  intros Hs. rewrite WordsFacts.blank_strip.
  destruct (Text.blank s) eqn:Hb; [|reflexivity].
  now apply WordsFacts.strip_blank in Hb.
Qed.

(** What holds of the loop from any agent and for any keys. *)
Lemma loop_invariant (agent : SynapticLoop) (keys : list key) :
  (Agent WarnEmptyInput ∉ (loop w agent keys).1.2) /\
  (ThankYou ∈ (loop w agent keys).1.2 ->
   (loop w agent keys).2 = Returned /\
   last (loop w agent keys).1.2 = Some ThankYou) /\
  exists rows,
    collection (codex (loop w agent keys).1.1)
    = collection (codex agent) ++ rows.
Proof.
  revert agent.
  induction keys as [keys IH] using (Nat.measure_induction _ (@length key)).
  intros agent. destruct keys as [|[s|] keys].
  - simpl. split; [|split].
    + intros H. apply list_elem_of_singleton in H. discriminate.
    + intros H. apply list_elem_of_singleton in H. discriminate.
    + exists []. now rewrite app_nil_r.
  - cbn [loop].
    destruct (decide (Text.strip s = EmptyString)) as [He|Hne];
      [apply IH; simpl; lia|].
    destruct (handle_cases agent s) as [[Hq Hh]|(Hq & a1 & out1 & sp & Hh & Hty & Hw & Hc)];
      cbv zeta in Hh; rewrite Hh.
    + rewrite (decide_True _ _ Hq). simpl. split; [|split].
      * intros H. apply list_elem_of_singleton in H. discriminate.
      * intros _. split; reflexivity.
      * exists []. now rewrite app_nil_r.
    + rewrite (decide_False _ _ Hq). destruct sp.
      * specialize (IH keys ltac:(simpl; lia) a1).
        destruct (loop w a1 keys) as [[a out] e]. simpl in *.
        destruct IH as (IHw & IHt & rows & IHr). split; [|split].
        -- intros H. apply elem_of_app in H as [H|H]; auto.
        -- intros H. apply elem_of_app in H as [H|H]; [contradiction|].
           destruct (IHt H) as [-> Hlast]. split; [reflexivity|].
           destruct out as [|o out]; [discriminate|].
           now rewrite last_app_cons.
        -- exists rows. now rewrite IHr, Hc.
      * pose proof (process_no_warning (Text.strip s) a1 (strip_not_blank s Hne))
          as Hnw.
        destruct (appended_rows w (Text.strip s) a1) as (rows1 & Hr1 & _ & _).
        destruct (process_sensory_input w (Text.strip s) a1) as [a2 out2].
        simpl in Hnw, Hr1.
        specialize (IH keys ltac:(simpl; lia) a2).
        destruct (loop w a2 keys) as [[a out] e]. simpl in *.
        destruct IH as (IHw & IHt & rows & IHr).
        assert (Hmap : forall o, o ∈ map Agent out2 -> exists x, o = Agent x /\ x ∈ out2).
        { intros o Ho. apply list_elem_of_fmap in Ho as (x & -> & Hx). eauto. }
        split; [|split].
        -- intros H. apply elem_of_cons in H as [H|H]; [discriminate|].
           apply elem_of_app in H as [H|H]; [|auto].
           apply Hmap in H as (x & [= <-] & Hx). contradiction.
        -- intros H. apply elem_of_cons in H as [H|H]; [discriminate|].
           apply elem_of_app in H as [H|H];
             [apply Hmap in H as (x & Hx & _); discriminate|].
           destruct (IHt H) as [-> Hlast]. split; [reflexivity|].
           destruct out as [|o out]; [discriminate|].
           change (ProcessingInput :: map Agent out2 ++ o :: out)
             with ((ProcessingInput :: map Agent out2) ++ o :: out).
           now rewrite last_app_cons.
        -- exists (rows1 ++ rows). now rewrite IHr, Hr1, Hc, app_assoc.
  - cbn [loop]. destruct keys as [|[answer|] keys].
    + simpl. split; [|split].
      * intros H. repeat (apply elem_of_cons in H as [H|H]; [discriminate|]).
        now apply elem_of_nil in H.
      * intros H. repeat (apply elem_of_cons in H as [H|H]; [discriminate|]).
        now apply elem_of_nil in H.
      * exists []. now rewrite app_nil_r.
    + destruct (decide (Words.lower (Text.strip answer) ∈ ["y"; "yes"])).
      * simpl. split; [|split].
        -- intros H. repeat (apply elem_of_cons in H as [H|H]; [discriminate|]).
           now apply elem_of_nil in H.
        -- intros H. repeat (apply elem_of_cons in H as [H|H]; [discriminate|]).
           now apply elem_of_nil in H.
        -- exists []. now rewrite app_nil_r.
      * specialize (IH keys ltac:(simpl; lia) agent).
        destruct (loop w agent keys) as [[a out] e]. simpl in *.
        destruct IH as (IHw & IHt & rows & IHr). split; [|split].
        -- intros H. repeat (apply elem_of_cons in H as [H|H]; [discriminate|]).
           contradiction.
        -- intros H. repeat (apply elem_of_cons in H as [H|H]; [discriminate|]).
           destruct (IHt H) as [-> Hlast]. split; [reflexivity|].
           destruct out as [|o out]; [discriminate|].
           exact Hlast.
        -- exists rows. exact IHr.
    + simpl. split; [|split].
      * intros H. repeat (apply elem_of_cons in H as [H|H]; [discriminate|]).
        now apply elem_of_nil in H.
      * intros H. repeat (apply elem_of_cons in H as [H|H]; [discriminate|]).
        now apply elem_of_nil in H.
      * exists []. now rewrite app_nil_r.
Qed.

End CliExtras.

Section CliTheorems.
Import Cli.

Context (w : World).

(** X13.  The command line never hands the agent a text that is empty after
    trimming: whatever is typed, the empty-input warning of
    [process_sensory_input] is never printed. *)
Theorem cli_never_warns_empty_input (db : option Codex) (keys : list key) :
  Agent WarnEmptyInput ∉ (main w db keys).1.2.
Proof.
  destruct db as [c|]; simpl.
  - pose proof (loop_invariant w (new_loop c) keys) as [Hw _].
    destruct (loop w (new_loop c) keys) as [[a out] e]. simpl in *.
    intros H. repeat (apply elem_of_cons in H as [H|H]; [discriminate|]).
    contradiction.
  - intros H. repeat (apply elem_of_cons in H as [H|H]; [discriminate|]).
    now apply elem_of_nil in H.
Qed.

(** X14.  When the thanks of a quit command are printed, they are the last
    thing printed and [main] returns: the test of [main] for leaving its loop
    agrees with the test of [handle_special_command] for a quit command. *)
Theorem cli_thanks_then_returns (db : option Codex) (keys : list key) :
  ThankYou ∈ (main w db keys).1.2 ->
  (main w db keys).2 = Returned /\
  last (main w db keys).1.2 = Some ThankYou.
Proof.
  destruct db as [c|]; simpl.
  - pose proof (loop_invariant w (new_loop c) keys) as (_ & Ht & _).
    destruct (loop w (new_loop c) keys) as [[a out] e]. simpl in *.
    intros H. repeat (apply elem_of_cons in H as [H|H]; [discriminate|]).
    destruct (Ht H) as [-> Hlast]. split; [reflexivity|].
    destruct out as [|o out]; [discriminate | exact Hlast].
  - intros H. repeat (apply elem_of_cons in H as [H|H]; [discriminate|]).
    now apply elem_of_nil in H.
Qed.

(** X15.  No command of the command line deletes or alters a memory: when
    the session ends, the collection is the one the database held at the
    start followed by the rows added since. *)
Theorem cli_keeps_memories (c : Codex) (keys : list key) :
  exists a rows,
    (main w (Some c) keys).1.1 = Some a /\
    collection (codex a) = collection c ++ rows.
Proof.
  simpl.
  pose proof (loop_invariant w (new_loop c) keys) as (_ & _ & rows & Hr).
  destruct (loop w (new_loop c) keys) as [[a out] e]. simpl in *.
  exists a, rows. split; [reflexivity | exact Hr].
Qed.

Lemma loop_quit (agent : SynapticLoop) (q : string) (rest : list key) :
  Words.lower (Text.strip q) ∈ ["quit"; "exit"] ->
  loop w agent (Line q :: rest) = (agent, [ThankYou], Returned).
Proof.
  intros Hq. cbn [loop].
  rewrite (decide_False _ _ (quits_not_empty _ Hq)).
  destruct (handle_cases agent q) as [[_ Hh]|[Hn _]]; [|contradiction].
  cbv zeta in Hh. rewrite Hh. now rewrite (decide_True _ _ Hq).
Qed.

(** X16.  A quit command ends the session: what is typed after ["quit"] or
    ["exit"], in any case and with any blanks around, changes nothing of what
    [main] does. *)
Theorem cli_quit_ends_session (db : option Codex) (lines : list string)
    (q : string) (rest : list key) :
  Words.lower (Text.strip q) ∈ ["quit"; "exit"] ->
  main w db (map Line lines ++ Line q :: rest)
  = main w db (map Line lines ++ [Line q]).
Proof.
  intros Hq. destruct db as [c|]; simpl; [|reflexivity].
  assert (Hloop : forall agent,
    loop w agent (map Line lines ++ Line q :: rest)
    = loop w agent (map Line lines ++ [Line q])).
  { induction lines as [|s lines IH]; intros agent.
    - simpl app. now rewrite !loop_quit.
    - simpl map. simpl app. cbn [loop].
      destruct (decide (Text.strip s = EmptyString)); [apply IH|].
      destruct (handle_special_command agent (Text.strip s)) as [[a1 out1] sp].
      destruct sp.
      + destruct (decide (Words.lower (Text.strip s) ∈ ["quit"; "exit"]));
          [reflexivity | now rewrite IH].
      + destruct (process_sensory_input w (Text.strip s) a1) as [a2 out2].
        now rewrite IH. }
  now rewrite Hloop.
Qed.

(** X17.  When the standard input ends at the question that follows a
    keyboard interrupt, no quit command having been typed before, the session
    ends with the message of a failed initialisation and exit status 1: the
    end of input raised in the interrupt handler is caught by the handler
    meant for the creation of the agent. *)
Theorem cli_interrupt_then_end_of_input (c : Codex) (lines : list string) :
  Forall (fun s => Words.lower (Text.strip s) ∉ ["quit"; "exit"]) lines ->
  (main w (Some c) (map Line lines ++ [Interrupt])).2 = SysExit 1 /\
  last (main w (Some c) (map Line lines ++ [Interrupt])).1.2 = Some InitFailed.
Proof.
  intros Hlines. simpl.
  assert (Hloop : forall agent,
    (loop w agent (map Line lines ++ [Interrupt])).2 = SysExit 1 /\
    last (loop w agent (map Line lines ++ [Interrupt])).1.2 = Some InitFailed).
  { induction Hlines as [|s lines Hs _ IH]; intros agent.
    - simpl. split; reflexivity.
    - simpl map. simpl app. cbn [loop].
      destruct (decide (Text.strip s = EmptyString)); [apply IH|].
      destruct (handle_special_command agent (Text.strip s)) as [[a1 out1] sp].
      destruct sp.
      + rewrite (decide_False _ _ Hs).
        specialize (IH a1).
        destruct (loop w a1 (map Line lines ++ [Interrupt])) as [[a out] e].
        simpl in *. destruct IH as [-> Hlast]. split; [reflexivity|].
        destruct out as [|o out]; [discriminate|].
        now rewrite last_app_cons.
      + destruct (process_sensory_input w (Text.strip s) a1) as [a2 out2].
        specialize (IH a2).
        destruct (loop w a2 (map Line lines ++ [Interrupt])) as [[a out] e].
        simpl in *. destruct IH as [-> Hlast]. split; [reflexivity|].
        destruct out as [|o out]; [discriminate|].
        change (ProcessingInput :: map Agent out2 ++ o :: out)
          with ((ProcessingInput :: map Agent out2) ++ o :: out).
        now rewrite last_app_cons. }
  specialize (Hloop (new_loop c)).
  destruct (loop w (new_loop c) (map Line lines ++ [Interrupt])) as [[a out] e].
  simpl in *. destruct Hloop as [-> Hlast]. split; [reflexivity|].
  destruct out as [|o out]; [discriminate | exact Hlast].
Qed.

(** X18.  [handle_special_command] does not look at the case of the command
    nor at the blanks around it. *)
Theorem handle_special_command_normalises (agent : SynapticLoop)
    (command : string) :
  handle_special_command agent (Words.lower command)
  = handle_special_command agent command /\
  handle_special_command agent (Text.strip command)
  = handle_special_command agent command.
Proof.
  unfold handle_special_command. split.
  - now rewrite WordsFacts.lower_idem.
  - now rewrite <- WordsFacts.strip_lower, WordsFacts.strip_idem.
Qed.

End CliTheorems.

(** ** The hash-based mock embedding *)

Section HashEmbeddingFacts.
Import HashEmbedding.

Lemma scaled_length (hash_bytes : list N) :
  length (scaled hash_bytes) = length hash_bytes.
Proof. unfold scaled. apply length_map. Qed.

(** One round of the padding loop keeps the list a repetition of [e0], and a
    whole number of copies of it unless the dimension is reached. *)
Lemma pad_round (e0 e : list Q) (dim : nat) :
  (0 < length e0)%nat ->
  repeats e0 e ->
  (length e0 | length e)%nat ->
  (0 < length e < dim)%nat ->
  let e' := e ++ take (Nat.min (dim - length e) (length e)) e in
  repeats e0 e' /\
  (length e < length e' <= dim)%nat /\
  ((length e' < dim)%nat -> (length e0 | length e')%nat).
Proof.
  intros HL Hrep Hdiv Hlen e'. subst e'.
  set (m := Nat.min (dim - length e) (length e)).
  assert (Hm : length (take m e) = m) by (rewrite length_take; lia).
  split; [|split].
  - intros i Hi. rewrite length_app, Hm in Hi.
    destruct (decide (i < length e)%nat) as [Hlt|Hge].
    + rewrite lookup_app_l by exact Hlt. now apply Hrep.
    + rewrite lookup_app_r by lia.
      rewrite lookup_take_lt by lia.
      rewrite Hrep by lia.
      f_equal. destruct Hdiv as [k Hk].
      replace i with ((i - length e) + k * length e0)%nat at 2 by lia.
      rewrite Nat.Div0.mod_add. reflexivity.
  - rewrite length_app, Hm. lia.
  - rewrite length_app, Hm. intros Hlt.
    assert (m = length e) as -> by lia.
    destruct Hdiv as [k Hk]. exists (2 * k)%nat. lia.
Qed.

(** With as many rounds allowed as components are missing, the padding loop
    ends, on a repetition of [e0] of at least [dim] components. *)
Lemma pad_ends (e0 : list Q) (dim fuel : nat) (e : list Q) :
  (0 < length e0)%nat ->
  repeats e0 e ->
  (0 < length e)%nat ->
  ((length e < dim)%nat -> (length e0 | length e)%nat) ->
  (dim - length e <= fuel)%nat ->
  exists r, pad dim fuel e = Some r /\ repeats e0 r /\ (dim <= length r)%nat.
Proof.
  intros HL. revert e. induction fuel as [|fuel IH]; intros e Hrep Hpos Hdiv Hfuel.
  - simpl. destruct (length e <? dim)%nat eqn:Hlt.
    + apply Nat.ltb_lt in Hlt. lia.
    + apply Nat.ltb_ge in Hlt. exists e. auto.
  - simpl. destruct (length e <? dim)%nat eqn:Hlt.
    + apply Nat.ltb_lt in Hlt.
      destruct (pad_round e0 e dim HL Hrep (Hdiv Hlt) ltac:(lia))
        as (Hrep' & Hlen' & Hdiv').
      apply IH; [exact Hrep' | lia | exact Hdiv' | lia].
    + apply Nat.ltb_ge in Hlt. exists e. auto.
Qed.

Lemma repeats_self (e0 : list Q) : (0 < length e0)%nat -> repeats e0 e0.
Proof. intros HL i Hi. now rewrite Nat.mod_small. Qed.

(** The mock embedding of a text whose digest is not empty is computed and
    has [dim] components. *)
Lemma encode_defined (md5 : string -> list N) (dim : nat) (text : string) :
  md5 text <> [] ->
  exists v, encode md5 dim text = Some v /\ length v = dim.
Proof.
  intros Hd.
  assert (HL : (0 < length (scaled (md5 text)))%nat).
  { rewrite scaled_length. destruct (md5 text); [congruence | simpl; lia]. }
  destruct (pad_ends (scaled (md5 text)) dim dim (scaled (md5 text)) HL
              (repeats_self _ HL) HL (fun _ => Nat.divide_refl _) ltac:(lia))
    as (r & Hpad & _ & Hlen).
  exists (take dim r). unfold encode. rewrite Hpad. simpl.
  split; [reflexivity | rewrite length_take; lia].
Qed.

(** X19.  The hash-based mock embedding of a text whose MD5 digest is not
    empty (a digest has 16 bytes) is computed, the padding loop ending; it has
    exactly [dim] components (384 or 1536), and its component [i] is the byte
    [i mod 16] of the digest divided by 255: the digest repeated. *)
Theorem hash_embedding_repeats_digest (md5 : string -> list N) (dim : nat)
    (text : string) :
  md5 text <> [] ->
  exists v,
    encode md5 dim text = Some v /\ length v = dim /\
    forall i, (i < dim)%nat ->
      v !! i = scaled (md5 text) !! (i mod length (md5 text))%nat.
Proof.
  intros Hd.
  assert (HL : (0 < length (scaled (md5 text)))%nat).
  { rewrite scaled_length. destruct (md5 text); [congruence | simpl; lia]. }
  destruct (pad_ends (scaled (md5 text)) dim dim (scaled (md5 text)) HL
              (repeats_self _ HL) HL (fun _ => Nat.divide_refl _) ltac:(lia))
    as (r & Hpad & Hrep & Hlen).
  exists (take dim r). unfold encode. rewrite Hpad. simpl.
  split; [reflexivity|]. split; [rewrite length_take; lia|].
  intros i Hi. rewrite lookup_take_lt by exact Hi.
  rewrite Hrep by lia. now rewrite scaled_length.
Qed.

(** X20.  [OpenAIEmbeddingModel.encode] returns an embedding whether the
    service answers or not (the digest being not empty): the one of the
    service when it answers, and otherwise the mock embedding, of 1536
    components. *)
Theorem openai_encode_falls_back (api : string -> option (list Q))
    (md5 : string -> list N) (text : string) :
  md5 text <> [] ->
  exists v,
    openai_encode api md5 text = Some v /\
    match api text with
    | Some u => v = u
    | None => encode md5 1536 text = Some v /\ length v = 1536%nat
    end.
Proof.
  intros Hd. unfold openai_encode.
  destruct (api text) as [u|]; [now exists u|].
  destruct (encode_defined md5 1536 text Hd) as (v & Hv & Hlen).
  exists v. auto.
Qed.

End HashEmbeddingFacts.

(** ** The word-count mock embedding *)

Section WordEmbeddingFacts.
Import WordEmbedding.

Lemma foldl_length {A B : Type} (f : list A -> B -> list A) (l : list B)
    (e : list A) :
  (forall e b, length (f e b) = length e) ->
  length (foldl f e l) = length e.
Proof.
  intros Hf. revert e. induction l as [|b l IH]; intros e; simpl;
    [reflexivity|]. now rewrite IH, Hf.
Qed.

(** X21.  The word-count mock embedding always has 384 components, whatever
    the text (even empty), the vocabulary, the hash function and the values
    of [sin] and [sqrt]. *)
Theorem word_embedding_dimension (hash : string -> Z) (sin sqrt : Q -> Q)
    (vocab : gmap string nat) (text : string) :
  length (encode hash sin sqrt vocab text).2 = 384%nat.
Proof.
  unfold encode. cbv zeta. cbn [snd].
  assert (Hset : forall (voc : gmap string nat) (n : nat) (e : list Q)
                   (b : string * nat),
    length (let '(word, count) := b in
            match voc !! word with
            | Some _ =>
                <[Z.to_nat (hash word mod Z.of_nat embedding_dim) :=
                    (inject_Z (Z.of_nat count) / inject_Z (Z.of_nat n))%Q]> e
            | None => e
            end) = length e).
  { intros voc n e [word count]. destruct (voc !! word);
      [apply length_insert | reflexivity]. }
  match goal with
  | |- length (if ?b then _ else _) = _ => destruct b
  end; rewrite ?length_map;
    (rewrite foldl_length; [|intros; apply length_alter]);
    (rewrite foldl_length; [|intros; apply Hset]);
    apply length_replicate.
Qed.

Lemma learn_subseteq (vocab : gmap string nat) (word : string) :
  vocab ⊆ learn vocab word.
Proof.
  unfold learn. destruct (vocab !! word) eqn:Hw; [reflexivity|].
  now apply insert_subseteq.
Qed.

Lemma learn_known (vocab : gmap string nat) (word : string) :
  is_Some (learn vocab word !! word).
Proof.
  unfold learn. destruct (vocab !! word) eqn:Hw; [now rewrite Hw|].
  rewrite lookup_insert_eq. eauto.
Qed.

Lemma learn_size (vocab : gmap string nat) (word : string) :
  (size vocab <= size (learn vocab word) <= S (size vocab))%nat.
Proof.
  unfold learn. destruct (vocab !! word) eqn:Hw; [lia|].
  rewrite map_size_insert_None by exact Hw. lia.
Qed.

Lemma learn_numbered (vocab : gmap string nat) (word : string) :
  numbered vocab -> numbered (learn vocab word).
Proof.
  intros [Hlt Hinj]. unfold learn.
  destruct (vocab !! word) eqn:Hw; [split; assumption|].
  split.
  - intros x i. rewrite map_size_insert_None by exact Hw.
    destruct (decide (word = x)) as [<-|Hne].
    + rewrite lookup_insert_eq. intros [= <-]. lia.
    + rewrite lookup_insert_ne by exact Hne. intros Hx.
      specialize (Hlt x i Hx). lia.
  - intros w1 w2 i.
    destruct (decide (word = w1)) as [<-|Hn1];
      destruct (decide (word = w2)) as [<-|Hn2];
      rewrite ?lookup_insert_eq, ?lookup_insert_ne by assumption.
    + reflexivity.
    + intros [= <-] H2. specialize (Hlt w2 _ H2). lia.
    + intros H1 [= <-]. specialize (Hlt w1 _ H1). lia.
    + apply Hinj.
Qed.

Lemma learn_all (words : list string) (vocab : gmap string nat) :
  numbered vocab ->
  numbered (foldl learn vocab words) /\
  vocab ⊆ foldl learn vocab words /\
  (forall word, word ∈ words -> is_Some (foldl learn vocab words !! word)) /\
  (size vocab <= size (foldl learn vocab words)
   <= size vocab + length words)%nat.
Proof.
  revert vocab. induction words as [|x words IH]; intros vocab Hn; simpl.
  - split; [exact Hn|]. split; [reflexivity|]. split; [|lia].
    intros word Hw. now apply elem_of_nil in Hw.
  - destruct (IH (learn vocab x) (learn_numbered vocab x Hn))
      as (Hn' & Hsub & Hknown & Hsize).
    pose proof (learn_size vocab x) as Hs.
    split; [exact Hn'|]. split; [|split; [|lia]].
    + etransitivity; [apply learn_subseteq | exact Hsub].
    + intros word Hw. apply elem_of_cons in Hw as [->|Hw]; [|now apply Hknown].
      destruct (learn_known vocab x) as [i Hi].
      exists i. eapply lookup_weaken; eassumption.
Qed.

(** X22.  Encoding a text keeps the vocabulary numbered from 0 without gap
    or repetition; the words known before keep their numbers, every word of
    the text is known afterwards, and the vocabulary grows by no more than the
    number of words of the text. *)
Theorem vocabulary_stays_numbered (hash : string -> Z) (sin sqrt : Q -> Q)
    (vocab : gmap string nat) (text : string) :
  numbered vocab ->
  let vocab' := (encode hash sin sqrt vocab text).1 in
  let words := Words.split (Words.lower text) in
  numbered vocab' /\
  vocab ⊆ vocab' /\
  (forall word, word ∈ words -> is_Some (vocab' !! word)) /\
  (size vocab <= size vocab' <= size vocab + length words)%nat.
Proof. intros Hn. unfold encode. cbv zeta. cbn [fst]. now apply learn_all. Qed.

Lemma get_count_bump (counts : list (string * nat)) (word x : string) :
  get_count (bump word counts) x
  = (get_count counts x + if decide (word = x) then 1 else 0)%nat.
Proof.
  induction counts as [|[w0 n] counts IH]; simpl.
  - destruct (decide (word = x)); reflexivity.
  - destruct (decide (w0 = word)) as [->|Hne]; simpl.
    + destruct (decide (word = x)); lia.
    + destruct (decide (w0 = x)) as [->|Hx]; [|exact IH].
      rewrite (decide_False _ _ (not_eq_sym Hne)). lia.
Qed.

Lemma occurrences_cons (x word : string) (words : list string) :
  occurrences x (word :: words)
  = ((if decide (word = x) then 1 else 0) + occurrences x words)%nat.
Proof.
  unfold occurrences. rewrite filter_cons.
  destruct (decide (word = x)); reflexivity.
Qed.

Lemma count_from (words : list string) (counts : list (string * nat))
    (x : string) :
  get_count (foldl (fun counts word => bump word counts) counts words) x
  = (get_count counts x + occurrences x words)%nat.
Proof.
  revert counts. induction words as [|word words IH]; intros counts; simpl.
  - unfold occurrences. simpl. lia.
  - rewrite IH, get_count_bump, occurrences_cons. lia.
Qed.

(** X23.  The word counts of the mock embedding are exact: the count
    recorded for a word is the number of times it occurs among the words, 0
    for a word that does not occur. *)
Theorem count_words_exact (words : list string) (x : string) :
  get_count (count_words words) x = occurrences x words.
Proof. unfold count_words. now rewrite count_from. Qed.

End WordEmbeddingFacts.

(** ** The further properties at concrete inputs *)

Lemma stored_metadata_lookup_witness :
  let meta : gmap string MetaVal := {["timestamp" := MStr "mine"]} in
  let m := mkMemory 1 "hello" [1%Q; 0%Q] meta (inject_Z 1) in
  let c1 := mkCodex [entry_of_memory m] 2 in
  last (collection c1) = Some (entry_of_memory m) /\
  timestamp m = time Worlds.uncased (id m) /\
  Index.entry_metadata (entry_of_memory m) !! "timestamp" =
  match meta !! "timestamp" with
  | Some x => Some x
  | None =>
      if decide ("timestamp" = "timestamp") then Some (MNum (timestamp m))
      else None
  end.
Proof.
  intros meta m c1.
  apply (stored_metadata_lookup Worlds.uncased "hello" meta new_codex c1 m
           "timestamp").
  vm_compute. reflexivity.
Defined.

Lemma add_memory_keeps_documents_non_blank_witness :
  no_blank_document
    (fst (add_memory Worlds.uncased "Hello" ∅
            (mkCodex [Index.mkEntry 1 [1%Q; 0%Q] "hello" ∅] 2))).
Proof.
  apply (add_memory_keeps_documents_non_blank Worlds.uncased "Hello" ∅
           (mkCodex [Index.mkEntry 1 [1%Q; 0%Q] "hello" ∅] 2)).
  unfold no_blank_document. simpl. constructor; [reflexivity | constructor].
Defined.

Lemma whitespace_input_ignored_witness :
  process_sensory_input Worlds.uncased "   " (new_loop new_codex)
  = (new_loop new_codex, [WarnEmptyInput]).
Proof.
  apply (whitespace_input_ignored Worlds.uncased "   " (new_loop new_codex)).
  reflexivity.
Defined.

Lemma run_beliefs_from_inputs_witness :
  let calls := [ProcessInput "Hello"; ClearBeliefs; ProcessInput "Hi"] in
  (exists t, t ∈ inputs calls /\ Text.blank t = false
             /\ input_belief "Hi" = input_belief t)
  \/ exists n, (1 <= n <= 3)%nat /\ input_belief "Hi" = context_belief n.
Proof.
  intros calls.
  apply (run_beliefs_from_inputs Worlds.uncased new_codex calls
           (input_belief "Hi")).
  vm_compute. reflexivity.
Defined.

Lemma cli_thanks_then_returns_witness :
  let keys := [Cli.Line "hello"; Cli.Line " QUIT "] in
  (Cli.main Worlds.uncased (Some new_codex) keys).2 = Cli.Returned /\
  last (Cli.main Worlds.uncased (Some new_codex) keys).1.2
  = Some Cli.ThankYou.
Proof.
  intros keys.
  apply (cli_thanks_then_returns Worlds.uncased (Some new_codex) keys).
  vm_compute. repeat constructor.
Defined.

Lemma cli_quit_ends_session_witness :
  Cli.main Worlds.uncased (Some new_codex)
    (map Cli.Line ["hello"] ++ Cli.Line " Exit " :: [Cli.Line "more"])
  = Cli.main Worlds.uncased (Some new_codex)
      (map Cli.Line ["hello"] ++ [Cli.Line " Exit "]).
Proof.
  apply (cli_quit_ends_session Worlds.uncased (Some new_codex) ["hello"]
           " Exit " [Cli.Line "more"]).
  vm_compute. repeat constructor.
Defined.

Lemma cli_interrupt_then_end_of_input_witness :
  let keys := map Cli.Line ["hello"; "status"] ++ [Cli.Interrupt] in
  (Cli.main Worlds.uncased (Some new_codex) keys).2 = Cli.SysExit 1 /\
  last (Cli.main Worlds.uncased (Some new_codex) keys).1.2
  = Some Cli.InitFailed.
Proof.
  apply (cli_interrupt_then_end_of_input Worlds.uncased new_codex
           ["hello"; "status"]).
  repeat constructor;
    (intros H; cbv in H;
     repeat (apply elem_of_cons in H as [H|H]; [discriminate|]);
     now apply elem_of_nil in H).
Defined.

Lemma hash_embedding_repeats_digest_witness :
  let md5 : string -> list N :=
    fun _ => [93; 65; 64; 42; 188; 75; 42; 118; 185; 113; 157; 145; 16; 23;
              197; 146]%N in
  exists v,
    HashEmbedding.encode md5 384 "hello" = Some v /\ length v = 384%nat /\
    forall i, (i < 384)%nat ->
      v !! i = HashEmbedding.scaled (md5 "hello") !! (i mod length (md5 "hello"))%nat.
Proof.
  intros md5.
  apply (hash_embedding_repeats_digest md5 384 "hello").
  discriminate.
Defined.

Lemma openai_encode_falls_back_witness :
  let md5 : string -> list N :=
    fun _ => [93; 65; 64; 42; 188; 75; 42; 118; 185; 113; 157; 145; 16; 23;
              197; 146]%N in
  let api : string -> option (list Q) := fun _ => None in
  exists v,
    HashEmbedding.openai_encode api md5 "hello" = Some v /\
    HashEmbedding.encode md5 1536 "hello" = Some v /\ length v = 1536%nat.
Proof.
  intros md5 api.
  apply (openai_encode_falls_back api md5 "hello").
  discriminate.
Defined.

Lemma vocabulary_stays_numbered_witness :
  let hash : string -> Z := fun _ => 7%Z in
  let vocab' :=
    (WordEmbedding.encode hash (fun x => x) (fun x => x) ∅ "The cat the hat").1 in
  let words := Words.split (Words.lower "The cat the hat") in
  numbered vocab' /\
  ∅ ⊆ vocab' /\
  (forall word, word ∈ words -> is_Some (vocab' !! word)) /\
  (size (∅ : gmap string nat) <= size vocab'
   <= size (∅ : gmap string nat) + length words)%nat.
Proof.
  intros hash.
  apply (vocabulary_stays_numbered hash (fun x => x) (fun x => x) ∅
           "The cat the hat").
  split; intros *; rewrite lookup_empty; discriminate.
Defined.

(** ** What the tests assert, in general *)

Section TestFacts.

Context (w : World).

Lemma reliable_add (text : string) (meta : gmap string MetaVal) (c : Codex) :
  reliable w -> Text.blank text = false ->
  exists c1 m, add_memory w text meta c = (c1, Ok m).
Proof.
  intros [Henc Hidx] Hb. rewrite add_memory_eq, Hb.
  destruct (Henc (clock c) text) as [v ->]. simpl.
  unfold index_answers. rewrite Hidx. eauto.
Qed.

(** A stored input: the count grows by one, the input belief is held. *)
Lemma stored_input (text : string) (l : SynapticLoop) (c1 : Codex)
    (m : Memory) :
  Text.blank text = false ->
  add_memory w text sensory_metadata (codex l) = (c1, Ok m) ->
  let l' := fst (process_sensory_input w text l) in
  get_memory_count (codex l') = S (get_memory_count (codex l)) /\
  {[input_belief text]} ∪ beliefs l ⊆ beliefs l'.
Proof.
  intros Hb Hadd l'. subst l'.
  destruct (retrieve_memory w text 3 c1) as [c2 r] eqn:Hget.
  pose proof (process_stored w text l c1 c2 m r Hb Hadd Hget) as Hp.
  cbv zeta in Hp. rewrite Hp. loop_simpl. split.
  - apply retrieve_memory_collection in Hget.
    apply add_memory_ok in Hadd as (_ & _ & _ & _ & _ & Hrows & _).
    unfold get_memory_count, Index.count.
    rewrite Hget, Hrows, length_app. simpl. lia.
  - apply union_subseteq_r.
Qed.

(** X24.  When the embedding model and the index always answer, processing
    texts that are not empty after trimming stores them all: the count grows
    by exactly their number ([test_integration] asserts that it grows by at
    least as much). *)
Theorem reliable_world_stores_every_input (l : SynapticLoop)
    (texts : list string) :
  reliable w ->
  Forall (fun t => Text.blank t = false) texts ->
  get_memory_count (codex (run w l (map ProcessInput texts)))
  = (get_memory_count (codex l) + length texts)%nat.
Proof.
  intros Hw Htexts. revert l.
  induction Htexts as [|t texts Ht _ IH]; intros l; simpl; [lia|].
  change (foldl (step w) (step w l (ProcessInput t)) (map ProcessInput texts))
    with (run w (step w l (ProcessInput t)) (map ProcessInput texts)).
  rewrite IH. simpl.
  destruct (reliable_add t sensory_metadata (codex l) Hw Ht) as (c1 & m & Hadd).
  destruct (stored_input t l c1 m Ht Hadd) as [-> _]. lia.
Qed.

Lemma run_inputs_keep (l : SynapticLoop) (texts : list string) :
  beliefs l ⊆ beliefs (run w l (map ProcessInput texts)).
Proof.
  revert l. induction texts as [|t texts IH]; intros l; simpl; [reflexivity|].
  etransitivity; [apply (beliefs_kept w t l)|]. apply IH.
Qed.

Lemma run_inputs_believed (l : SynapticLoop) (texts : list string) :
  reliable w ->
  Forall (fun t => Text.blank t = false) texts ->
  forall t, t ∈ texts ->
    input_belief t ∈ beliefs (run w l (map ProcessInput texts)).
Proof.
  intros Hw Htexts. revert l.
  induction Htexts as [|x texts Hx _ IH]; intros l t Ht;
    [now apply elem_of_nil in Ht|].
  simpl. apply elem_of_cons in Ht as [->|Ht]; [|now apply IH].
  apply (run_inputs_keep _ texts).
  destruct (reliable_add x sensory_metadata (codex l) Hw Hx) as (c1 & m & Hadd).
  destruct (stored_input x l c1 m Hx Hadd) as [_ Hsub].
  apply Hsub. apply elem_of_union_l. now apply elem_of_singleton.
Qed.

Lemma input_belief_inj (s t : string) :
  input_belief s = input_belief t -> s = t.
Proof. unfold input_belief. apply (inj (String.app _)). Qed.

(** X25.  When the embedding model and the index always answer, after
    processing distinct texts that are not empty after trimming the cycle
    holds at least as many beliefs as there were texts, one input belief for
    each ([test_integration]). *)
Theorem distinct_inputs_distinct_beliefs (l : SynapticLoop)
    (texts : list string) :
  reliable w ->
  Forall (fun t => Text.blank t = false) texts ->
  NoDup texts ->
  (forall t, t ∈ texts ->
     input_belief t ∈ get_beliefs (run w l (map ProcessInput texts))) /\
  (length texts <= size (get_beliefs (run w l (map ProcessInput texts))))%nat.
Proof.
  intros Hw Htexts Hnd.
  pose proof (run_inputs_believed l texts Hw Htexts) as Hall.
  split; [exact Hall|]. unfold get_beliefs.
  assert (Hnd' : NoDup (input_belief <$> texts)).
  { apply NoDup_fmap_2; [|exact Hnd]. intros s t. apply input_belief_inj. }
  rewrite <- (length_fmap input_belief texts).
  rewrite <- (size_list_to_set (C := gset string) _ Hnd').
  apply subseteq_size. intros b Hb.
  apply elem_of_list_to_set, list_elem_of_fmap in Hb as (t & -> & Ht).
  now apply Hall.
Qed.

(** X26.  A stored input whose input belief was not held yet makes the belief
    set strictly larger ([test_synaptic_loop] asserts it of a second input). *)
Theorem new_input_adds_belief (text : string) (l : SynapticLoop) (c1 : Codex)
    (m : Memory) :
  Text.blank text = false ->
  add_memory w text sensory_metadata (codex l) = (c1, Ok m) ->
  input_belief text ∉ get_beliefs l ->
  (size (get_beliefs l)
   < size (get_beliefs (fst (process_sensory_input w text l))))%nat.
Proof.
  intros Hb Hadd Hnew. unfold get_beliefs in *.
  destruct (stored_input text l c1 m Hb Hadd) as [_ Hsub].
  apply subseteq_size in Hsub.
  rewrite size_union, size_singleton in Hsub; [lia|].
  intros b Hb1 Hb2. apply elem_of_singleton in Hb1. now subst b.
Qed.

End TestFacts.

(** ** The first version *)

Section LegacyFacts.
Import Legacy.

Context (w : World).

(** X27.  In the first version [process_sensory_input] checks nothing and
    catches nothing: when the model or the index raises, the exception leaves
    the call, and beliefs and memories are as before; otherwise exactly one
    memory, holding the text as given (empty or not), and one belief are
    added. *)
Theorem legacy_process_all_or_nothing (text : string) (l : Loop) :
  match process_sensory_input w text l with
  | (l', _, Some e) =>
      beliefs l' = beliefs l /\
      collection (codex l') = collection (codex l) /\
      e <> EndOfFile
  | (l', _, None) =>
      beliefs l' = {["The user recently said: " +:+ text]} ∪ beliefs l /\
      exists row,
        collection (codex l') = collection (codex l) ++ [row] /\
        Index.entry_document row = text
  end.
Proof.
  unfold process_sensory_input, add_memory.
  destruct (encode w (clock (codex l)) text) as [v|]; simpl.
  - destruct (index_up w (S (clock (codex l)))); simpl.
    + split; [reflexivity|]. eexists. split; reflexivity.
    + repeat split; discriminate.
  - repeat split; discriminate.
Qed.

Lemma loop_left (fuel : nat) (agent : Loop) (keys : list Cli.key) :
  (loop w fuel agent keys).2 = Left -> Exists leaves keys.
Proof.
  revert agent keys. induction fuel as [|fuel IH]; intros agent keys;
    [discriminate|].
  destruct keys as [|[s|] keys]; cbn [loop].
  - specialize (IH agent []).
    destruct (loop w fuel agent []) as [[a out] o]. exact IH.
  - destruct (decide (Words.lower (Text.strip s) ∈ ["quit"; "exit"])) as [Hq|Hq];
      [intros _; now left|].
    destruct (decide (Text.strip s = EmptyString)).
    + intros H. right. now apply (IH agent).
    + destruct (process_sensory_input w (Text.strip s) agent)
        as [[agent1 out1] raised1].
      specialize (IH agent1 keys).
      destruct (loop w fuel agent1 keys) as [[a out] o].
      destruct raised1; intros H; right; now apply IH.
  - intros _. now left.
Qed.

Lemma loop_leaves (keys : list Cli.key) (fuel : nat) (agent : Loop) :
  Exists leaves keys -> (length keys <= fuel)%nat ->
  (loop w fuel agent keys).2 = Left.
Proof.
  revert fuel agent. induction keys as [|k keys IH]; intros fuel agent Hex Hlen;
    [now apply Exists_nil in Hex|].
  destruct fuel as [|fuel]; [simpl in Hlen; lia|].
  simpl in Hlen. destruct k as [s|]; cbn [loop]; [|reflexivity].
  destruct (decide (Words.lower (Text.strip s) ∈ ["quit"; "exit"])) as [Hq|Hq];
    [reflexivity|].
  apply Exists_cons in Hex as [Hex|Hex]; [contradiction|].
  destruct (decide (Text.strip s = EmptyString)).
  - apply IH; [exact Hex | lia].
  - destruct (process_sensory_input w (Text.strip s) agent)
      as [[agent1 out1] raised1].
    specialize (IH fuel agent1 Hex ltac:(lia)).
    destruct (loop w fuel agent1 keys) as [[a out] o].
    destruct raised1; exact IH.
Qed.

(** X28.  The loop of the first [main] is left exactly when a quit command
    or a keyboard interrupt is among the keys, and then within one round per
    key.  At the end of the standard input it is never left: the [EOFError]
    of [input()] is reported as an error and the loop goes on. *)
Theorem legacy_main_leaves_iff_asked (agent : Loop) (keys : list Cli.key) :
  (Exists leaves keys <-> exists fuel, (loop w fuel agent keys).2 = Left) /\
  (Exists leaves keys -> (loop w (length keys) agent keys).2 = Left) /\
  forall fuel, (loop w fuel agent []).2 = StillRunning.
Proof.
  split; [split|split].
  - intros Hex. exists (length keys). now apply loop_leaves.
  - intros [fuel Hf]. now apply loop_left in Hf.
  - intros Hex. now apply loop_leaves.
  - intros fuel. destruct (loop w fuel agent []) as [[a out] o] eqn:Hl.
    destruct o; [|reflexivity].
    assert (Hleft : (loop w fuel agent []).2 = Left) by now rewrite Hl.
    apply loop_left in Hleft. now apply Exists_nil in Hleft.
Qed.

End LegacyFacts.

Lemma new_input_adds_belief_witness :
  (size (get_beliefs (new_loop new_codex))
   < size (get_beliefs
             (fst (process_sensory_input Worlds.uncased "Hello"
                     (new_loop new_codex)))))%nat.
Proof.
  apply (new_input_adds_belief Worlds.uncased "Hello" (new_loop new_codex)
           (Runs.hello_stored [1%Q; 0%Q] 2) (Runs.hello_memory [1%Q; 0%Q])).
  - reflexivity.
  - vm_compute. reflexivity.
  - apply not_elem_of_empty.
Defined.

Lemma uncased_reliable : reliable Worlds.uncased.
Proof.
  split; [|reflexivity]. intros n s. simpl.
  repeat case_decide; eauto.
Qed.

Lemma reliable_world_stores_every_input_witness :
  get_memory_count
    (codex (run Worlds.uncased (new_loop new_codex)
              (map ProcessInput ["Hello"; "Hello again"])))
  = (get_memory_count (codex (new_loop new_codex))
     + length ["Hello"; "Hello again"])%nat.
Proof.
  apply (reliable_world_stores_every_input Worlds.uncased (new_loop new_codex)
           ["Hello"; "Hello again"] uncased_reliable).
  repeat constructor.
Defined.

Lemma distinct_inputs_distinct_beliefs_witness :
  let texts := ["Hello"; "Hello again"] in
  let l := run Worlds.uncased (new_loop new_codex) (map ProcessInput texts) in
  (forall t, t ∈ texts -> input_belief t ∈ get_beliefs l) /\
  (length texts <= size (get_beliefs l))%nat.
Proof.
  apply (distinct_inputs_distinct_beliefs Worlds.uncased (new_loop new_codex)
           ["Hello"; "Hello again"] uncased_reliable).
  - repeat constructor.
  - apply NoDup_cons. split; [|apply NoDup_singleton].
    intros H. apply list_elem_of_singleton in H. discriminate.
Defined.

Lemma legacy_main_leaves_iff_asked_witness :
  let keys := [Cli.Line "hi"; Cli.Line " Quit"; Cli.Line "more"] in
  let agent := Legacy.mkLoop new_codex ∅ in
  (Legacy.loop Worlds.uncased (length keys) agent keys).2 = Legacy.Left.
Proof.
  intros keys agent.
  apply (legacy_main_leaves_iff_asked Worlds.uncased agent keys).
  right. left. vm_compute. repeat constructor.
Defined.

(** ** More runs *)

Module MoreRuns.

Example split_lower_example :
  Words.split (Words.lower "  The  cat SAT ") = ["the"; "cat"; "sat"].
Proof. reflexivity. Qed.

Example count_words_example :
  WordEmbedding.count_words ["the"; "cat"; "the"; "hat"]
  = [("the", 2%nat); ("cat", 1%nat); ("hat", 1%nat)].
Proof. reflexivity. Qed.

(** With an empty digest the padding loop would never end. *)
Example pad_empty_digest : HashEmbedding.pad 384 384 [] = None.
Proof. vm_compute. reflexivity. Qed.

Example cli_session :
  (Cli.main Worlds.uncased (Some new_codex)
     [Cli.Line "  "; Cli.Line "Clear"; Cli.Interrupt; Cli.Line "n";
      Cli.Line "HELP"; Cli.Line "quit "; Cli.Line "ignored"]).1.2
  = [Cli.Initializing; Cli.Initialized; Cli.Welcome; Cli.BeliefsCleared;
     Cli.InterruptReceived; Cli.Continuing; Cli.HelpText; Cli.ThankYou].
Proof. vm_compute. reflexivity. Qed.

(** ["Hello"], ["hello"] and ["Hello"] again are stored by a model that gives
    all three the same embedding: the lookup of ["Hello"] returns the document
    of the oldest row, which is ["Hello"], stored first. *)
Example oldest_of_three_twins :
  let c1 := fst (add_memory Worlds.uncased "Hello" ∅ new_codex) in
  let c2 := fst (add_memory Worlds.uncased "hello" ∅ c1) in
  let c3 := fst (add_memory Worlds.uncased "Hello" ∅ c2) in
  map Index.entry_id (collection c3) = [1%nat; 3%nat; 5%nat] /\
  snd (retrieve_memory Worlds.uncased "Hello" 1 c3) = Ok ["Hello"] /\
  map Index.entry_id
    (Index.nearest [1%Q; 0%Q] 3 (collection c3)) = [1%nat; 3%nat; 5%nat].
Proof. cbv zeta. repeat split; vm_compute; reflexivity. Qed.

(** Over the index of one dimensionality, a text whose embedding has the
    dimensionality of the stored row is stored and found. *)
Example same_dimension_stored :
  let added := Strict.add_memory Worlds.two_models "cd" ∅ Runs.one_pair in
  map Index.entry_document (collection (fst added)) = ["ab"; "cd"] /\
  snd (Strict.retrieve_memory Worlds.two_models "cd" 5 (fst added))
  = Ok ["ab"; "cd"] /\
  snd (Strict.retrieve_memory Worlds.two_models "abc" 5 (fst added))
  = Raise RetrieveError.
Proof. cbv zeta. repeat split; vm_compute; reflexivity. Qed.

Example legacy_end_of_input :
  (Legacy.loop Worlds.uncased 3 (Legacy.mkLoop new_codex ∅) []).1.2
  = [Legacy.ErrorOccurred Legacy.EndOfFile;
     Legacy.ErrorOccurred Legacy.EndOfFile;
     Legacy.ErrorOccurred Legacy.EndOfFile].
Proof. reflexivity. Qed.

End MoreRuns.
